(** * Krishimitra front-end: a shallow embedding of [script.js]

    The script is modelled function by function.  A JavaScript string is the
    sequence of its UTF-16 code units; built-ins of the host whose result
    depends on Unicode tables or on the locale ([String.prototype.toLowerCase],
    [Date.prototype.toLocaleString]) are Variables of a Section, so every
    theorem holds for any host.  A concrete ASCII lower-casing is provided to
    run the definitions on concrete inputs. *)

From Stdlib Require Import List String Ascii Bool Arith NArith ZArith QArith Lia.
From Stdlib Require DecimalFacts DecimalN.
Import ListNotations.

Local Open Scope N_scope.
Local Open Scope list_scope.

(** ** JavaScript strings *)

Abbreviation codeunit := N (only parsing).
Abbreviation jsstring := (list N) (only parsing).

(** A string literal of the source, as its code units. *)
Definition lit (s : string) : jsstring :=
  List.map N_of_ascii (list_ascii_of_string s).

(** [s.length] *)
Definition jslength (s : jsstring) : nat := List.length s.

(** [!s] for a string: only the empty string is falsy. *)
Definition is_empty (s : jsstring) : bool :=
  match s with [] => true | _ :: _ => false end.

Fixpoint starts_with (p s : jsstring) : bool :=
  match p, s with
  | [], _ => true
  | _ :: _, [] => false
  | a :: p', b :: s' => N.eqb a b && starts_with p' s'
  end.

(** [s.includes(p)] *)
Fixpoint includes (s p : jsstring) : bool :=
  starts_with p s ||
  match s with
  | [] => false
  | _ :: s' => includes s' p
  end.

(** [s.slice(0, n)] for [0 <= n] *)
Definition slice0 (s : jsstring) (n : nat) : jsstring := firstn n s.


(** White space and line terminators of ECMAScript, the code units removed by
    [String.prototype.trim]. *)
Definition is_space (c : codeunit) : bool :=
  (9 <=? c) && (c <=? 13) || (c =? 32) || (c =? 160) || (c =? 5760) ||
  (8192 <=? c) && (c <=? 8202) || (c =? 8232) || (c =? 8233) ||
  (c =? 8239) || (c =? 8287) || (c =? 12288) || (c =? 65279).

Fixpoint trimStart (s : jsstring) : jsstring :=
  match s with
  | [] => []
  | c :: s' => if is_space c then trimStart s' else s
  end.

Definition trimEnd (s : jsstring) : jsstring := rev (trimStart (rev s)).

(** [s.trim()] *)
Definition trim (s : jsstring) : jsstring := trimEnd (trimStart s).

(** Lower-casing of the ASCII letters; every other code unit is kept.  It
    agrees with [toLowerCase] on ASCII text and serves to run the model. *)
Definition ascii_lower (c : codeunit) : codeunit :=
  if (65 <=? c) && (c <=? 90) then c + 32 else c.

Definition ascii_toLowerCase (s : jsstring) : jsstring := List.map ascii_lower s.

(** ** Values, exceptions and promises *)

(** A parameter that the caller may leave out or pass as [null]. *)
Inductive nullable (A : Type) : Type :=
| undefined : nullable A
| null : nullable A
| val : A -> nullable A.
Arguments undefined {A}.
Arguments null {A}.
Arguments val {A} _.

(** [s || ''] *)
Definition or_empty (s : nullable jsstring) : jsstring :=
  match s with
  | val x => x
  | _ => []
  end.

Inductive Error : Type :=
| TypeError
| SyntaxError.

(** The outcome of evaluating an expression or a function body. *)
Inductive completion (A : Type) : Type :=
| Normal : A -> completion A
| Throw : Error -> completion A.
Arguments Normal {A} _.
Arguments Throw {A} _.

Definition bind {A B : Type} (m : completion A) (k : A -> completion B)
  : completion B :=
  match m with
  | Normal a => k a
  | Throw e => Throw e
  end.

Notation "x <- m ;; k" := (bind m (fun x => k))
  (at level 61, m at next level, right associativity).

(** A promise, by the way it settles. *)
Inductive Promise (A : Type) : Type :=
| resolves_after : N -> A -> Promise A
| rejects : Error -> Promise A.
Arguments resolves_after {A} _ _.
Arguments rejects {A} _.

(** ** Application data *)

(** The coordinates that the geolocation callback stores. *)
Record Location : Type := { lat : Q; lon : Q }.

(** An uploaded [File]; only its presence matters to the script. *)
Inductive File : Type := mkFile (name : jsstring).

(** The [ctx] argument of the fetcher: an object whose properties may be
    missing. *)
Record QueryCtx : Type := {
  ctx_location : option Location;
  ctx_lastImage : option File
}.

Record Response : Type := {
  res_answer : jsstring;
  res_confidence : option Q;
  res_sources : option (list jsstring);
  res_error : bool
}.

Definition isSome {A : Type} (o : option A) : bool :=
  match o with Some _ => true | None => false end.

(** ** [mockAIResponse] *)

Definition text_fallback : jsstring :=
  lit "I'm not sure how to answer that. Could you provide a photo or more details? For urgent issues, you can use the 'Escalate' button.".
Definition text_prompt : jsstring :=
  lit "Please type a question or upload a photo of your crop.".
Definition text_leafspot : jsstring :=
  lit "Probable issue: Leaf spot. Recommendation: Remove affected lower leaves. For chemical control, use a copper-based fungicide at the recommended dosage. Please consult your local Krishibhavan for specific product guidance.".
Definition text_market : jsstring :=
  lit "Market rates change daily. It's best to check your local mandi for today's rates. We can provide live rates if connected to a market API.".
Definition text_weather : jsstring :=
  lit "Weather Alert: Light showers are expected tomorrow evening. It's advisable to postpone spraying pesticides. Ensure proper drainage for low-lying fields. (This can be integrated with a local weather API).".
Definition location_disclaimer : jsstring :=
  lit "(Based on your approximate location) ".
Definition text_apology : jsstring :=
  lit "Sorry, I couldn't connect to the server. Please check your internet connection and try again.".

(** [ctx.lastImage]: reading a property of [null] or [undefined] throws. *)
Definition get_lastImage (ctx : nullable QueryCtx) : completion (option File) :=
  match ctx with
  | val c => Normal (ctx_lastImage c)
  | _ => Throw TypeError
  end.

(** [ctx && ctx.location], as a truth value. *)
Definition has_location (ctx : nullable QueryCtx) : bool :=
  match ctx with
  | val c => isSome (ctx_location c)
  | _ => false
  end.

Section Fetcher.

Variable toLowerCase : jsstring -> jsstring.

(** The [if]/[else if] chain of lines 87 to 95, with the short-circuit
    evaluation of [&&] and [||] deciding when [ctx.lastImage] is read. *)
Definition mock_text (q : jsstring) (ctx : nullable QueryCtx)
  : completion jsstring :=
  c1 <- (if is_empty q
         then img <- get_lastImage ctx ;; Normal (negb (isSome img))
         else Normal false) ;;
  if c1 : bool then Normal text_prompt else
  c2 <- (if includes q (lit "pesticide") || includes q (lit "leaf spot")
         then Normal true
         else img <- get_lastImage ctx ;;
              Normal (isSome img && includes q (lit "leaf"))) ;;
  if c2 : bool then Normal text_leafspot else
  if includes q (lit "price") || includes q (lit "market")
  then Normal text_market else
  if includes q (lit "weather") || includes q (lit "rain")
  then Normal text_weather else
  Normal text_fallback.

Definition mockAIResponse (query : nullable jsstring) (lang : jsstring)
  (ctx : nullable QueryCtx) : completion (Promise Response) :=
  let q := toLowerCase (or_empty query) in
  text <- mock_text q ctx ;;
  let text := if has_location ctx then location_disclaimer ++ text else text in
  Normal (resolves_after 1200
            {| res_answer := text;
               res_confidence := Some (85 # 100);
               res_sources := Some [lit "Local Agri Dept Guidelines"];
               res_error := false |}).

(** [getAIResponse]: the form data built in lines 43 to 49 is not read again
    (the network call is commented out in the source); the [try] block returns
    the promise of [mockAIResponse], the [catch] block the apology. *)
Definition getAIResponse (query : nullable jsstring) (lang : jsstring)
  (imageFile : option File) (ctx : nullable QueryCtx) : Promise Response :=
  match mockAIResponse query lang ctx with
  | Normal p => p
  | Throw _ =>
      resolves_after 0
        {| res_answer := text_apology;
           res_confidence := None;
           res_sources := None;
           res_error := true |}
  end.

End Fetcher.

(** ** [escapeHtml] *)

(** The replacement function of line 209, applied to one code unit: the five
    units matched by the pattern are replaced, any other is kept. *)
Definition escape_unit (c : codeunit) : jsstring :=
  if c =? 38 then lit "&amp;"
  else if c =? 60 then lit "&lt;"
  else if c =? 62 then lit "&gt;"
  else if c =? 34 then lit "&quot;"
  else if c =? 39 then lit "&#39;"
  else [c].

Definition escapeHtml (s : nullable jsstring) : jsstring :=
  flat_map escape_unit (or_empty s).

(** The five replacement entities. *)
Definition entities : list jsstring :=
  [lit "&amp;"; lit "&lt;"; lit "&gt;"; lit "&quot;"; lit "&#39;"].

(** ** History records and their JSON text *)

Record HistoryRecord : Type := {
  rec_q : jsstring;
  rec_lang : jsstring;
  rec_ts : Z;
  rec_answer : jsstring
}.

Definition dq : jsstring := [34].

Fixpoint uint_units (d : Decimal.uint) : jsstring :=
  match d with
  | Decimal.Nil => []
  | Decimal.D0 d => 48 :: uint_units d
  | Decimal.D1 d => 49 :: uint_units d
  | Decimal.D2 d => 50 :: uint_units d
  | Decimal.D3 d => 51 :: uint_units d
  | Decimal.D4 d => 52 :: uint_units d
  | Decimal.D5 d => 53 :: uint_units d
  | Decimal.D6 d => 54 :: uint_units d
  | Decimal.D7 d => 55 :: uint_units d
  | Decimal.D8 d => 56 :: uint_units d
  | Decimal.D9 d => 57 :: uint_units d
  end.

(** The decimal text of an integer number (the timestamps of the script are
    integers far below 10^21, where JavaScript prints all digits). *)
Definition N_units (n : N) : jsstring := uint_units (N.to_uint n).

Definition Z_units (z : Z) : jsstring :=
  if (z <? 0)%Z then 45 :: N_units (Z.abs_N z) else N_units (Z.abs_N z).

Definition hex_unit (n : N) : codeunit :=
  if n <? 10 then 48 + n else 87 + n.

(** [\uXXXX] with lower-case digits. *)
Definition unicode_escape (c : codeunit) : jsstring :=
  [92; 117; hex_unit (c / 4096 mod 16); hex_unit (c / 256 mod 16);
   hex_unit (c / 16 mod 16); hex_unit (c mod 16)].

Definition is_high (c : codeunit) : bool := (55296 <=? c) && (c <=? 56319).
Definition is_low (c : codeunit) : bool := (56320 <=? c) && (c <=? 57343).

(** One code unit that is not the first half of a surrogate pair, as
    [JSON.stringify] writes it inside a string. *)
Definition quote_unit (c : codeunit) : jsstring :=
  if c =? 8 then [92; 98]
  else if c =? 9 then [92; 116]
  else if c =? 10 then [92; 110]
  else if c =? 12 then [92; 102]
  else if c =? 13 then [92; 114]
  else if c =? 34 then [92; 34]
  else if c =? 92 then [92; 92]
  else if (c <? 32) || is_low c then unicode_escape c
  else [c].

(** The body of a quoted string: surrogate pairs are copied, lone surrogates
    and control characters are escaped. *)
Fixpoint quote_units (s : jsstring) : jsstring :=
  match s with
  | [] => []
  | c :: s' =>
      if is_high c then
        match s' with
        | d :: s'' =>
            if is_low d then c :: d :: quote_units s''
            else unicode_escape c ++ quote_units s'
        | [] => unicode_escape c
        end
      else quote_unit c ++ quote_units s'
  end.

Definition quote (s : jsstring) : jsstring := dq ++ quote_units s ++ dq.

Definition stringify_record (r : HistoryRecord) : jsstring :=
  lit "{" ++ quote (lit "q") ++ lit ":" ++ quote (rec_q r) ++
  lit "," ++ quote (lit "lang") ++ lit ":" ++ quote (rec_lang r) ++
  lit "," ++ quote (lit "ts") ++ lit ":" ++ Z_units (rec_ts r) ++
  lit "," ++ quote (lit "answer") ++ lit ":" ++ quote (rec_answer r) ++
  lit "}".

Fixpoint join_comma (l : list jsstring) : jsstring :=
  match l with
  | [] => []
  | [x] => x
  | x :: l' => x ++ 44 :: join_comma l'
  end.

(** [JSON.stringify(context.history)] *)
Definition JSON_stringify (h : list HistoryRecord) : jsstring :=
  lit "[" ++ join_comma (List.map stringify_record h) ++ lit "]".

(** ** [JSON.parse] *)

(** A parsed JSON text.  A number keeps the sign and the decimal digits of its
    literal, [mantissa * 10 ^ exponent]; an object keeps its members in the
    order of the text. *)
#[local] Unset Elimination Schemes.
Inductive JSON : Type :=
| JNull
| JBool (b : bool)
| JNumber (negative : bool) (mantissa : N) (exponent : Z)
| JString (s : jsstring)
| JArray (items : list JSON)
| JObject (members : list (jsstring * JSON)).
#[local] Set Elimination Schemes.

Definition is_json_space (c : codeunit) : bool :=
  (c =? 9) || (c =? 10) || (c =? 13) || (c =? 32).

Fixpoint skip_ws (s : jsstring) : jsstring :=
  match s with
  | [] => []
  | c :: s' => if is_json_space c then skip_ws s' else s
  end.

Definition hex_value (c : codeunit) : option N :=
  if (48 <=? c) && (c <=? 57) then Some (c - 48)
  else if (97 <=? c) && (c <=? 102) then Some (c - 87)
  else if (65 <=? c) && (c <=? 70) then Some (c - 55)
  else None.

Definition hex4 (a b c d : codeunit) : option codeunit :=
  match hex_value a, hex_value b, hex_value c, hex_value d with
  | Some x, Some y, Some z, Some w => Some (x * 4096 + y * 256 + z * 16 + w)
  | _, _, _, _ => None
  end.

(** The unit denoted by the character after a backslash, [u] apart. *)
Definition simple_escape (e : codeunit) : option codeunit :=
  if e =? 34 then Some 34
  else if e =? 92 then Some 92
  else if e =? 47 then Some 47
  else if e =? 98 then Some 8
  else if e =? 102 then Some 12
  else if e =? 110 then Some 10
  else if e =? 114 then Some 13
  else if e =? 116 then Some 9
  else None.

Definition cons_unit (c : codeunit) (r : option (jsstring * jsstring))
  : option (jsstring * jsstring) :=
  match r with
  | Some (s, rest) => Some (c :: s, rest)
  | None => None
  end.

(** The characters of a string after its opening quote, up to and including
    the closing quote: the string read and the text that follows. *)
Fixpoint parse_string_body (s : jsstring) : option (jsstring * jsstring) :=
  match s with
  | [] => None
  | c :: r =>
      if c =? 34 then Some ([], r)
      else if c =? 92 then
        match r with
        | [] => None
        | e :: r1 =>
            if e =? 117 then
              match r1 with
              | h1 :: h2 :: h3 :: h4 :: r2 =>
                  match hex4 h1 h2 h3 h4 with
                  | Some u => cons_unit u (parse_string_body r2)
                  | None => None
                  end
              | _ => None
              end
            else
              match simple_escape e with
              | Some u => cons_unit u (parse_string_body r1)
              | None => None
              end
        end
      else if c <? 32 then None
      else cons_unit c (parse_string_body r)
  end.

Definition is_digit (c : codeunit) : bool := (48 <=? c) && (c <=? 57).

(** The digit [c] before the digits [d]. *)
Definition digit_cons (c : codeunit) (d : Decimal.uint) : Decimal.uint :=
  if c =? 48 then Decimal.D0 d
  else if c =? 49 then Decimal.D1 d
  else if c =? 50 then Decimal.D2 d
  else if c =? 51 then Decimal.D3 d
  else if c =? 52 then Decimal.D4 d
  else if c =? 53 then Decimal.D5 d
  else if c =? 54 then Decimal.D6 d
  else if c =? 55 then Decimal.D7 d
  else if c =? 56 then Decimal.D8 d
  else Decimal.D9 d.

(** The longest run of decimal digits at the start of [s]. *)
Fixpoint take_digits (s : jsstring) : Decimal.uint * jsstring :=
  match s with
  | [] => (Decimal.Nil, [])
  | c :: r =>
      if is_digit c
      then let (d, rest) := take_digits r in (digit_cons c d, rest)
      else (Decimal.Nil, s)
  end.

(** The integer part of a number: one digit at least, and no zero before
    another digit. *)
Definition int_part_ok (d : Decimal.uint) : bool :=
  match d with
  | Decimal.Nil => false
  | Decimal.D0 Decimal.Nil => true
  | Decimal.D0 _ => false
  | _ => true
  end.

Definition is_nil (d : Decimal.uint) : bool :=
  match d with Decimal.Nil => true | _ => false end.

(** [. digits], when present. *)
Definition parse_fraction (s : jsstring) : option (Decimal.uint * jsstring) :=
  match s with
  | c :: r =>
      if c =? 46 then
        let (d, rest) := take_digits r in
        if is_nil d then None else Some (d, rest)
      else Some (Decimal.Nil, s)
  | [] => Some (Decimal.Nil, s)
  end.

Definition parse_exp_digits (neg : bool) (s : jsstring)
  : option (Z * jsstring) :=
  let (d, rest) := take_digits s in
  if is_nil d then None
  else Some (if neg then (- Z.of_uint d)%Z else Z.of_uint d, rest).

(** [e] or [E], an optional sign and digits, when present. *)
Definition parse_exponent (s : jsstring) : option (Z * jsstring) :=
  match s with
  | c :: r =>
      if (c =? 101) || (c =? 69) then
        match r with
        | c' :: r' =>
            if c' =? 43 then parse_exp_digits false r'
            else if c' =? 45 then parse_exp_digits true r'
            else parse_exp_digits false r
        | [] => None
        end
      else Some (0%Z, s)
  | [] => Some (0%Z, s)
  end.

(** The sign of a number, and the text after it. *)
Definition parse_sign (s : jsstring) : bool * jsstring :=
  match s with
  | c :: r => if c =? 45 then (true, r) else (false, s)
  | [] => (false, s)
  end.

Definition parse_number (s : jsstring) : option (JSON * jsstring) :=
  let (neg, s1) := parse_sign s in
  let (int, s2) := take_digits s1 in
  if int_part_ok int then
    match parse_fraction s2 with
    | Some (frac, s3) =>
        match parse_exponent s3 with
        | Some (e, s4) =>
            Some (JNumber neg (N.of_uint (Decimal.app int frac))
                    (e - Z.of_nat (Decimal.nb_digits frac)), s4)
        | None => None
        end
    | None => None
    end
  else None.

Section Containers.

(** The parser of values one nesting level down. *)
Variable parse_inner : jsstring -> option (JSON * jsstring).

(** The elements of an array after its bracket, when it is not empty; [n]
    bounds the number of elements. *)
Fixpoint parse_elements (n : nat) (s : jsstring)
  : option (list JSON * jsstring) :=
  match n with
  | O => None
  | S n' =>
      match parse_inner s with
      | Some (v, r) =>
          match skip_ws r with
          | c :: r' =>
              if c =? 44 then
                match parse_elements n' r' with
                | Some (vs, r'') => Some (v :: vs, r'')
                | None => None
                end
              else if c =? 93 then Some ([v], r')
              else None
          | [] => None
          end
      | None => None
      end
  end.

(** The members of an object after its brace, when it is not empty. *)
Fixpoint parse_members (n : nat) (s : jsstring)
  : option (list (jsstring * JSON) * jsstring) :=
  match n with
  | O => None
  | S n' =>
      match skip_ws s with
      | q :: r =>
          if q =? 34 then
            match parse_string_body r with
            | Some (k, r1) =>
                match skip_ws r1 with
                | c :: r2 =>
                    if c =? 58 then
                      match parse_inner r2 with
                      | Some (v, r3) =>
                          match skip_ws r3 with
                          | c' :: r4 =>
                              if c' =? 44 then
                                match parse_members n' r4 with
                                | Some (ms, r5) => Some ((k, v) :: ms, r5)
                                | None => None
                                end
                              else if c' =? 125 then Some ([(k, v)], r4)
                              else None
                          | [] => None
                          end
                      | None => None
                      end
                    else None
                | [] => None
                end
            | None => None
            end
          else None
      | [] => None
      end
  end.

(** A value, with the white space before it. *)
Definition parse_value_step (s : jsstring) : option (JSON * jsstring) :=
  match skip_ws s with
  | [] => None
  | c :: r =>
      if c =? 34 then
        match parse_string_body r with
        | Some (str, rest) => Some (JString str, rest)
        | None => None
        end
      else if c =? 91 then
        match skip_ws r with
        | c' :: r' =>
            if c' =? 93 then Some (JArray [], r')
            else
              match parse_elements (List.length r) r with
              | Some (vs, rest) => Some (JArray vs, rest)
              | None => None
              end
        | [] => None
        end
      else if c =? 123 then
        match skip_ws r with
        | c' :: r' =>
            if c' =? 125 then Some (JObject [], r')
            else
              match parse_members (List.length r) r with
              | Some (ms, rest) => Some (JObject ms, rest)
              | None => None
              end
        | [] => None
        end
      else if starts_with (lit "true") (c :: r)
      then Some (JBool true, skipn 3 r)
      else if starts_with (lit "false") (c :: r)
      then Some (JBool false, skipn 4 r)
      else if starts_with (lit "null") (c :: r)
      then Some (JNull, skipn 3 r)
      else parse_number (c :: r)
  end.

End Containers.

(** The parser of values; [fuel] bounds the nesting of arrays and objects. *)
Fixpoint parse_value (fuel : nat) (s : jsstring) : option (JSON * jsstring) :=
  match fuel with
  | O => None
  | S f => parse_value_step (parse_value f) s
  end.

(** [JSON.parse(text)]: one value, white space around it, nothing else; any
    other text is a [SyntaxError].  Every level of nesting and every element
    takes a character of the text, so its length bounds both. *)
Definition JSON_parse (text : jsstring) : completion JSON :=
  match parse_value (S (List.length text)) text with
  | Some (v, rest) =>
      if is_empty (skip_ws rest) then Normal v else Throw SyntaxError
  | None => Throw SyntaxError
  end.

(** The value that [JSON.parse] builds for a stored record and for a stored
    history. *)
Definition json_of_record (r : HistoryRecord) : JSON :=
  JObject [(lit "q", JString (rec_q r));
           (lit "lang", JString (rec_lang r));
           (lit "ts", JNumber (rec_ts r <? 0)%Z (Z.abs_N (rec_ts r)) 0);
           (lit "answer", JString (rec_answer r))].

Definition json_of_history (h : list HistoryRecord) : JSON :=
  JArray (List.map json_of_record h).

(** The initializer of [context.history] in line 25:
    [JSON.parse(localStorage.getItem('kr_history') || '[]')], where [getItem]
    gives [null] for a missing key. *)
Definition load (stored : option jsstring) : completion JSON :=
  JSON_parse (match stored with
              | Some s => if is_empty s then lit "[]" else s
              | None => lit "[]"
              end).

(** ** The page: session state, storage and the elements the script writes *)

Record Context : Type := {
  location : option Location;
  lastImage : option File;
  history : list HistoryRecord
}.

(** [responseMeta.textContent]; the percentage of [MetaAnswer] is printed by
    [toFixed], whose digits are not modelled. *)
Inductive Meta : Type :=
| MetaAnalyzing
| MetaError
| MetaAnswer (confidence : option Q).

(** A child of [historyList]: parsed markup, or an element created by the
    script with its class name and the markup assigned to it. *)
Inductive Node : Type :=
| Markup (html : jsstring)
| Div (className : jsstring) (innerHTML : jsstring).

Record UI : Type := {
  queryText_value : jsstring;
  langSelect_value : jsstring;
  sendBtn_disabled : bool;
  sendBtn_textContent : jsstring;
  responseArea_hidden : bool;
  loader_hidden : bool;
  responseActions_hidden : bool;
  responseMeta_textContent : Meta;
  responseText_innerHTML : jsstring;
  historyList : list Node
}.

(** A running interval timer of [typewriterEffect] with its closure. *)
Record Typing : Type := {
  typing_text : jsstring;
  typing_i : nat
}.

(** A call of the fetcher, as [handleQuery] makes it. *)
Record Request : Type := {
  req_query : jsstring;
  req_lang : jsstring;
  req_image : option File;
  req_ctx : QueryCtx
}.

Record App : Type := {
  context : Context;
  kr_history : option jsstring;   (* localStorage, key 'kr_history' *)
  ui : UI;
  timers : list Typing;           (* intervals that were not cleared *)
  alerts : list jsstring;         (* messages shown by alert() *)
  requests : list Request         (* calls of getAIResponse *)
}.

Definition cursor : jsstring :=
  lit "<span class=" ++ dq ++ lit "cursor" ++ dq ++ lit "></span>".

(** ** [typewriterEffect] *)

(** The call itself: the element shows the cursor and a timer is started. *)
Definition typewriterEffect (text : jsstring) (a : App) : App :=
  let u := ui a in
  {| context := context a;
     kr_history := kr_history a;
     ui := {| queryText_value := queryText_value u;
              langSelect_value := langSelect_value u;
              sendBtn_disabled := sendBtn_disabled u;
              sendBtn_textContent := sendBtn_textContent u;
              responseArea_hidden := responseArea_hidden u;
              loader_hidden := loader_hidden u;
              responseActions_hidden := responseActions_hidden u;
              responseMeta_textContent := responseMeta_textContent u;
              responseText_innerHTML := cursor;
              historyList := historyList u |};
     timers := timers a ++ [{| typing_text := text; typing_i := 0 |}];
     alerts := alerts a;
     requests := requests a |}.

(** One run of the interval callback of lines 191 to 199 on its closure:
    the markup it assigns, and the timer if it was not cleared. *)
Definition typing_tick (t : Typing) : jsstring * option Typing :=
  let text := typing_text t in
  let i := typing_i t in
  if (i <? jslength text)%nat
  then (slice0 text (i + 1) ++ cursor,
        Some {| typing_text := text; typing_i := S i |})
  else (text, None).

(** ** Assignments to the page *)

Definition set_ui (u : UI) (a : App) : App :=
  {| context := context a; kr_history := kr_history a; ui := u;
     timers := timers a; alerts := alerts a; requests := requests a |}.

Definition set_history (h : list HistoryRecord) (a : App) : App :=
  {| context := {| location := location (context a);
                   lastImage := lastImage (context a);
                   history := h |};
     kr_history := kr_history a; ui := ui a;
     timers := timers a; alerts := alerts a; requests := requests a |}.

(** [localStorage.setItem('kr_history', v)] *)
Definition setItem (v : jsstring) (a : App) : App :=
  {| context := context a; kr_history := Some v; ui := ui a;
     timers := timers a; alerts := alerts a; requests := requests a |}.

(** [alert(msg)] *)
Definition alert (msg : jsstring) (a : App) : App :=
  {| context := context a; kr_history := kr_history a; ui := ui a;
     timers := timers a; alerts := alerts a ++ [msg];
     requests := requests a |}.

Definition log_request (r : Request) (a : App) : App :=
  {| context := context a; kr_history := kr_history a; ui := ui a;
     timers := timers a; alerts := alerts a;
     requests := requests a ++ [r] |}.

Definition set_historyList (l : list Node) (a : App) : App :=
  let u := ui a in
  set_ui {| queryText_value := queryText_value u;
            langSelect_value := langSelect_value u;
            sendBtn_disabled := sendBtn_disabled u;
            sendBtn_textContent := sendBtn_textContent u;
            responseArea_hidden := responseArea_hidden u;
            loader_hidden := loader_hidden u;
            responseActions_hidden := responseActions_hidden u;
            responseMeta_textContent := responseMeta_textContent u;
            responseText_innerHTML := responseText_innerHTML u;
            historyList := l |} a.

(** Lines 124 to 130: the loading state. *)
Definition show_loading (a : App) : App :=
  let u := ui a in
  set_ui {| queryText_value := queryText_value u;
            langSelect_value := langSelect_value u;
            sendBtn_disabled := true;
            sendBtn_textContent := lit "Analyzing...";
            responseArea_hidden := false;
            loader_hidden := false;
            responseActions_hidden := true;
            responseMeta_textContent := MetaAnalyzing;
            responseText_innerHTML := [];
            historyList := historyList u |} a.

(** Lines 136 to 138: the loader is hidden and the button enabled again. *)
Definition hide_loading (a : App) : App :=
  let u := ui a in
  set_ui {| queryText_value := queryText_value u;
            langSelect_value := langSelect_value u;
            sendBtn_disabled := false;
            sendBtn_textContent := lit "Ask Now";
            responseArea_hidden := responseArea_hidden u;
            loader_hidden := true;
            responseActions_hidden := responseActions_hidden u;
            responseMeta_textContent := responseMeta_textContent u;
            responseText_innerHTML := responseText_innerHTML u;
            historyList := historyList u |} a.

Definition set_responseMeta (m : Meta) (a : App) : App :=
  let u := ui a in
  set_ui {| queryText_value := queryText_value u;
            langSelect_value := langSelect_value u;
            sendBtn_disabled := sendBtn_disabled u;
            sendBtn_textContent := sendBtn_textContent u;
            responseArea_hidden := responseArea_hidden u;
            loader_hidden := loader_hidden u;
            responseActions_hidden := responseActions_hidden u;
            responseMeta_textContent := m;
            responseText_innerHTML := responseText_innerHTML u;
            historyList := historyList u |} a.

(** [responseActions.classList.remove('hidden')] *)
Definition show_responseActions (a : App) : App :=
  let u := ui a in
  set_ui {| queryText_value := queryText_value u;
            langSelect_value := langSelect_value u;
            sendBtn_disabled := sendBtn_disabled u;
            sendBtn_textContent := sendBtn_textContent u;
            responseArea_hidden := responseArea_hidden u;
            loader_hidden := loader_hidden u;
            responseActions_hidden := false;
            responseMeta_textContent := responseMeta_textContent u;
            responseText_innerHTML := responseText_innerHTML u;
            historyList := historyList u |} a.

Definition set_responseText (m : jsstring) (a : App) : App :=
  let u := ui a in
  set_ui {| queryText_value := queryText_value u;
            langSelect_value := langSelect_value u;
            sendBtn_disabled := sendBtn_disabled u;
            sendBtn_textContent := sendBtn_textContent u;
            responseArea_hidden := responseArea_hidden u;
            loader_hidden := loader_hidden u;
            responseActions_hidden := responseActions_hidden u;
            responseMeta_textContent := responseMeta_textContent u;
            responseText_innerHTML := m;
            historyList := historyList u |} a.

Definition set_timers (ts : list Typing) (a : App) : App :=
  {| context := context a; kr_history := kr_history a; ui := ui a;
     timers := ts; alerts := alerts a; requests := requests a |}.

(** The list of running timers once the [k]-th has fired: its closure is
    updated, or the timer is gone when it cleared itself. *)
Fixpoint update_timer (k : nat) (t' : option Typing) (ts : list Typing)
  : list Typing :=
  match ts, k with
  | [], _ => []
  | _ :: r, O => match t' with Some t => t :: r | None => r end
  | t :: r, S k' => t :: update_timer k' t' r
  end.

(** The [k]-th running timer fires: its callback writes the element. *)
Definition fire (k : nat) (a : App) : App :=
  match nth_error (timers a) k with
  | Some t =>
      let (m, t') := typing_tick t in
      set_timers (update_timer k t' (timers a)) (set_responseText m a)
  | None => a
  end.

(** [n] firings in a row of the first running timer. *)
Fixpoint fire_first (n : nat) (a : App) : App :=
  match n with
  | O => a
  | S n' => fire_first n' (fire 0 a)
  end.

(** [Array.prototype.push] and [Array.prototype.shift], on the array only. *)
Definition push {A : Type} (l : list A) (x : A) : list A := l ++ [x].
Definition shift {A : Type} (l : list A) : list A := tl l.

(** ** [renderHistory] and [handleQuery] *)

Section Page.

Variable toLowerCase : jsstring -> jsstring.
Variable toLocaleString : Z -> jsstring.

Definition no_recent_queries : jsstring :=
  lit "<div class=" ++ dq ++ lit "meta" ++ dq ++ lit " style=" ++ dq ++
  lit "padding: 10px;" ++ dq ++ lit ">No recent queries.</div>".

(** The first cell of an item: [escapeHtml(item.q) || 'Image Query']. *)
Definition query_cell (item : HistoryRecord) : jsstring :=
  let e := escapeHtml (val (rec_q item)) in
  if is_empty e then lit "Image Query" else e.

(** The template literal of lines 173 to 176, by its three substitutions. *)
Definition item_template (q_cell ts_cell a_cell : jsstring) : jsstring :=
  [10] ++ lit "      <div class=" ++ dq ++ lit "q" ++ dq ++ lit ">" ++
  q_cell ++ lit "</div>" ++
  [10] ++ lit "      <div class=" ++ dq ++ lit "ts" ++ dq ++ lit ">" ++
  ts_cell ++ lit "</div>" ++
  [10] ++ lit "      <div class=" ++ dq ++ lit "a" ++ dq ++ lit ">" ++
  a_cell ++ lit "</div>".

Definition item_markup (item : HistoryRecord) : jsstring :=
  item_template (query_cell item)
                (toLocaleString (rec_ts item))
                (escapeHtml (val (rec_answer item))).

Definition render_item (item : HistoryRecord) : Node :=
  Div (lit "history-item") (item_markup item).

Definition renderHistory (a : App) : App :=
  let h := history (context a) in
  if (List.length h =? 0)%nat
  then set_historyList [Markup no_recent_queries] a
  else set_historyList
         (fold_left (fun children item => children ++ [render_item item])
                    (rev h) [])
         a.

(** [handleQuery] up to its [await]: either the submission is refused, or the
    fetcher has been called with [req] and the function waits for its
    promise, holding [text] and [lang] ([req_query], [req_lang]) in its
    closure. *)
Inductive Submission : Type :=
| Blocked (a : App)
| Pending (req : Request) (a : App).

Definition handleQuery_begin (a : App) : Submission :=
  let text := trim (queryText_value (ui a)) in
  let lang := langSelect_value (ui a) in
  let imageFile := lastImage (context a) in
  if is_empty text && negb (isSome imageFile)
  then Blocked (alert (lit "Please enter a question or upload an image.") a)
  else
    let req := {| req_query := text; req_lang := lang;
                  req_image := imageFile;
                  req_ctx := {| ctx_location := location (context a);
                                ctx_lastImage := None |} |} in
    Pending req (log_request req (show_loading a)).

(** Lines 149 to 153: the record is appended, the oldest one dropped when
    more than ten are held, the array stored and the list redrawn. *)
Definition save_to_history (rec : HistoryRecord) (a : App) : App :=
  let h := push (history (context a)) rec in
  let h := if (10 <? List.length h)%nat then shift h else h in
  renderHistory (setItem (JSON_stringify h) (set_history h a)).

(** [handleQuery] after its [await], at time [now], with the response. *)
Definition handleQuery_resume (text lang : jsstring) (now : Z)
  (res : Response) (a : App) : App :=
  let a := hide_loading a in
  if res_error res then
    typewriterEffect (res_answer res) (set_responseMeta MetaError a)
  else
    let a := set_responseMeta (MetaAnswer (res_confidence res)) a in
    let a := typewriterEffect (res_answer res) a in
    let a := show_responseActions a in
    save_to_history {| rec_q := text; rec_lang := lang; rec_ts := now;
                       rec_answer := res_answer res |} a.

(** The response a request receives from the fetcher. *)
Definition fetch (r : Request) : Promise Response :=
  getAIResponse toLowerCase (val (req_query r)) (req_lang r) (req_image r)
    (val (req_ctx r)).

(** A whole run of [handleQuery], the promise settling at time [now] with
    nothing else happening in between.  A rejected promise would end the
    function at the [await]. *)
Definition handleQuery (now : Z) (a : App) : App :=
  match handleQuery_begin a with
  | Blocked a' => a'
  | Pending req a' =>
      match fetch req with
      | resolves_after _ res =>
          handleQuery_resume (req_query req) (req_lang req) now res a'
      | rejects _ => a'
      end
  end.

End Page.

(** ** Sequences of successful submissions *)

(** What [handleQuery] holds when a promise is fulfilled: the closure, the
    time and the response. *)
Record Fulfilled : Type := {
  f_text : jsstring;
  f_lang : jsstring;
  f_now : Z;
  f_res : Response
}.

(** The record of line 149. *)
Definition record_of (f : Fulfilled) : HistoryRecord :=
  {| rec_q := f_text f; rec_lang := f_lang f; rec_ts := f_now f;
     rec_answer := res_answer (f_res f) |}.

Definition resume_all (toLocaleString : Z -> jsstring) (fs : list Fulfilled)
  (a : App) : App :=
  fold_left
    (fun a f =>
       handleQuery_resume toLocaleString (f_text f) (f_lang f) (f_now f)
         (f_res f) a)
    fs a.

(** The last [n] elements of a list. *)
Definition last_n {A : Type} (n : nat) (l : list A) : list A :=
  skipn (List.length l - n) l.

(** ** Rules of the mocked fetcher, as truth values of the lower-cased query *)

Definition leaf_rule (q : jsstring) (img : bool) : bool :=
  includes q (lit "pesticide") || includes q (lit "leaf spot") ||
  img && includes q (lit "leaf").

Definition market_rule (q : jsstring) : bool :=
  includes q (lit "price") || includes q (lit "market").

Definition weather_rule (q : jsstring) : bool :=
  includes q (lit "weather") || includes q (lit "rain").

(** ** Concrete pages and inputs *)

Definition blank_ui : UI :=
  {| queryText_value := lit "  ";
     langSelect_value := lit "en";
     sendBtn_disabled := false;
     sendBtn_textContent := lit "Ask Now";
     responseArea_hidden := true;
     loader_hidden := true;
     responseActions_hidden := true;
     responseMeta_textContent := MetaAnalyzing;
     responseText_innerHTML := [];
     historyList := [Markup no_recent_queries] |}.

(** A fresh page: blank query, no image, nothing stored. *)
Definition fresh_app : App :=
  {| context := {| location := None; lastImage := None; history := [] |};
     kr_history := None;
     ui := blank_ui;
     timers := [];
     alerts := [];
     requests := [] |}.

(** The fresh page after a photo was chosen, the query left blank. *)
Definition image_only_app : App :=
  {| context := {| location := None;
                   lastImage := Some (mkFile (lit "leaf.jpg"));
                   history := [] |};
     kr_history := None;
     ui := blank_ui;
     timers := [];
     alerts := [];
     requests := [] |}.

Definition sample_record (n : Z) : HistoryRecord :=
  {| rec_q := lit "rain " ++ Z_units n; rec_lang := lit "en";
     rec_ts := (1730000000000 + n)%Z; rec_answer := text_weather |}.

(** Eleven records, as a page finds them when the stored array is longer
    than the script itself would have left it. *)
Definition eleven_records : list HistoryRecord :=
  List.map sample_record [1; 2; 3; 4; 5; 6; 7; 8; 9; 10; 11]%Z.

Definition overfull_app : App :=
  {| context := {| location := None; lastImage := None;
                   history := eleven_records |};
     kr_history := Some (JSON_stringify eleven_records);
     ui := blank_ui;
     timers := [];
     alerts := [];
     requests := [] |}.

Definition ok_response (answer : jsstring) : Response :=
  {| res_answer := answer; res_confidence := Some (85 # 100);
     res_sources := Some [lit "Local Agri Dept Guidelines"];
     res_error := false |}.

Definition error_response : Response :=
  {| res_answer := text_apology; res_confidence := None;
     res_sources := None; res_error := true |}.

(** A stand-in for the host in runs whose result does not depend on the date
    text: every instant prints as the same text. *)
Definition apostrophe_locale (ts : Z) : jsstring := lit "2 Nov '26, 19:25".

(** [Date.prototype.toLocaleString] of a host set to en-US and UTC: the
    numeric date and the twelve-hour time, [M/D/YYYY, h:mm:ss AM], of the
    instant [ts] in milliseconds since the epoch, for the instants of the
    common era, the civil date taken from the count of days (hosts with a
    recent ICU separate the day period by the unit U+202F, older ones by the
    space written here). *)
Definition two_digits (n : Z) : jsstring :=
  if (n <? 10)%Z then 48 :: N_units (Z.abs_N n) else N_units (Z.abs_N n).

Definition toLocaleString_en_US (ts : Z) : jsstring :=
  let days := (ts / 86400000)%Z in
  let ms := (ts mod 86400000)%Z in
  let z := (days + 719468)%Z in
  let era := (z / 146097)%Z in
  let doe := (z - era * 146097)%Z in
  let yoe := ((doe - doe / 1460 + doe / 36524 - doe / 146096) / 365)%Z in
  let doy := (doe - (365 * yoe + yoe / 4 - yoe / 100))%Z in
  let mp := ((5 * doy + 2) / 153)%Z in
  let d := (doy - (153 * mp + 2) / 5 + 1)%Z in
  let m := (if mp <? 10 then mp + 3 else mp - 9)%Z in
  let y := (yoe + era * 400 + (if m <=? 2 then 1 else 0))%Z in
  let h := (ms / 3600000)%Z in
  let h12 := (if h mod 12 =? 0 then 12 else h mod 12)%Z in
  Z_units m ++ lit "/" ++ Z_units d ++ lit "/" ++ Z_units y ++ lit ", " ++
  Z_units h12 ++ lit ":" ++ two_digits (ms / 60000 mod 60) ++ lit ":" ++
  two_digits (ms / 1000 mod 60) ++
  (if (h <? 12)%Z then lit " AM" else lit " PM").


(** ** Auxiliary notions of the statements *)

(** The array after lines 150 and 151. *)
Definition pushed (h : list HistoryRecord) (rec : HistoryRecord)
  : list HistoryRecord :=
  if (10 <? List.length (h ++ [rec]))%nat then tl (h ++ [rec]) else h ++ [rec].

(** Every ampersand of [s] starts one of the five entities. *)
Fixpoint amp_ok (s : jsstring) : bool :=
  match s with
  | [] => true
  | c :: r =>
      (negb (c =? 38) || existsb (fun e => starts_with e s) entities) &&
      amp_ok r
  end.

(** The units that open or close a tag or an attribute value. *)
Definition is_markup_unit (c : codeunit) : bool :=
  (c =? 60) || (c =? 62) || (c =? 34) || (c =? 39).

(** What may follow a number without being taken for a part of it. *)
Definition ends_number (c : codeunit) : bool :=
  negb (is_digit c || (c =? 46) || (c =? 101) || (c =? 69)).


(** A parser that consumes some of its input. *)
Definition consuming {A : Type} (p : jsstring -> option (A * jsstring)) : Prop :=
  forall s v r, p s = Some (v, r) -> (List.length r < List.length s)%nat.

Definition sample_fulfilled (n : Z) : Fulfilled :=
  {| f_text := lit "rain " ++ Z_units n; f_lang := lit "en";
     f_now := (1730000000000 + n)%Z; f_res := ok_response text_weather |}.

Definition eleven_fulfilled : list Fulfilled :=
  List.map sample_fulfilled [1; 2; 3; 4; 5; 6; 7; 8; 9; 10; 11]%Z.

(** ** The rest of the page: uploads, listeners and the events of a session *)

Definition set_context (c : Context) (a : App) : App :=
  {| context := c; kr_history := kr_history a; ui := ui a;
     timers := timers a; alerts := alerts a; requests := requests a |}.

(** [context.lastImage = file] *)
Definition set_lastImage (f : File) (a : App) : App :=
  set_context {| location := location (context a);
                 lastImage := Some f;
                 history := history (context a) |} a.

(** [context.location = { lat, lon }], the success callback of line 287. *)
Definition set_location (l : Location) (a : App) : App :=
  set_context {| location := Some l;
                 lastImage := lastImage (context a);
                 history := history (context a) |} a.

(** [queryText.value = v] *)
Definition set_queryText (v : jsstring) (a : App) : App :=
  let u := ui a in
  set_ui {| queryText_value := v;
            langSelect_value := langSelect_value u;
            sendBtn_disabled := sendBtn_disabled u;
            sendBtn_textContent := sendBtn_textContent u;
            responseArea_hidden := responseArea_hidden u;
            loader_hidden := loader_hidden u;
            responseActions_hidden := responseActions_hidden u;
            responseMeta_textContent := responseMeta_textContent u;
            responseText_innerHTML := responseText_innerHTML u;
            historyList := historyList u |} a.

(** [langSelect.value = v], by the user's choice. *)
Definition set_langSelect (v : jsstring) (a : App) : App :=
  let u := ui a in
  set_ui {| queryText_value := queryText_value u;
            langSelect_value := v;
            sendBtn_disabled := sendBtn_disabled u;
            sendBtn_textContent := sendBtn_textContent u;
            responseArea_hidden := responseArea_hidden u;
            loader_hidden := loader_hidden u;
            responseActions_hidden := responseActions_hidden u;
            responseMeta_textContent := responseMeta_textContent u;
            responseText_innerHTML := responseText_innerHTML u;
            historyList := historyList u |} a.

(** The [onresult] handler of lines 269 to 272: the transcript replaces an
    empty query and is appended after a space to any other. *)
Definition onresult (speech : jsstring) (a : App) : App :=
  let v := queryText_value (ui a) in
  set_queryText (if is_empty v then speech else v ++ 32 :: speech) a.

(** *** [encodeURIComponent] *)

(** The units that [encodeURIComponent] copies: letters, digits and
    [- _ . ! ~ * ' ( )]. *)
Definition is_unreserved (c : codeunit) : bool :=
  (65 <=? c) && (c <=? 90) || (97 <=? c) && (c <=? 122) ||
  (48 <=? c) && (c <=? 57) ||
  (c =? 45) || (c =? 95) || (c =? 46) || (c =? 33) || (c =? 126) ||
  (c =? 42) || (c =? 39) || (c =? 40) || (c =? 41).

(** An upper-case hexadecimal digit. *)
Definition hex_upper (n : N) : codeunit :=
  if n <? 10 then 48 + n else 55 + n.

(** [%XX] for the octet [b], by its two nibbles. *)
Definition percent (b : N) : jsstring :=
  [37; hex_upper (b / 16 mod 16); hex_upper (b mod 16)].

(** The UTF-8 octets of a code point. *)
Definition utf8 (cp : N) : list N :=
  if cp <? 128 then [cp]
  else if cp <? 2048 then [192 + cp / 64; 128 + cp mod 64]
  else if cp <? 65536
  then [224 + cp / 4096; 128 + cp / 64 mod 64; 128 + cp mod 64]
  else [240 + cp / 262144; 128 + cp / 4096 mod 64; 128 + cp / 64 mod 64;
        128 + cp mod 64].

(** The code point of a surrogate pair. *)
Definition pair_point (hi lo : codeunit) : N :=
  (hi - 55296) * 1024 + (lo - 56320) + 65536.

Definition prepend (x : jsstring) (r : option jsstring) : option jsstring :=
  match r with
  | Some y => Some (x ++ y)
  | None => None
  end.

(** [encodeURIComponent(s)]; [None] stands for the [URIError] thrown on a
    surrogate that has no partner. *)
Fixpoint encodeURIComponent (s : jsstring) : option jsstring :=
  match s with
  | [] => Some []
  | c :: r =>
      if is_unreserved c then prepend [c] (encodeURIComponent r)
      else if is_low c then None
      else if is_high c then
        match r with
        | d :: r' =>
            if is_low d
            then prepend (flat_map percent (utf8 (pair_point c d)))
                         (encodeURIComponent r')
            else None
        | [] => None
        end
      else prepend (flat_map percent (utf8 c)) (encodeURIComponent r)
  end.

(** *** The escalation link *)

(** [context.history[context.history.length - 1]] *)
Definition last_record (a : App) : option HistoryRecord :=
  match rev (history (context a)) with
  | r :: _ => Some r
  | [] => None
  end.

(** The template literal of line 246, before it is encoded. *)
Definition escalation_body (a : App) : jsstring :=
  lit "Farmer Query:" ++ [10] ++
  match last_record a with
  | Some last => rec_q last
  | None => queryText_value (ui a)
  end ++
  [10; 10] ++ lit "Last AI Answer:" ++ [10] ++
  match last_record a with
  | Some last => rec_answer last
  | None => lit "(none)"
  end.

Definition mailto_prefix : jsstring := lit "mailto:agri-officer@example.com?subject=".

(** The click handler of [escalateBtn], lines 242 to 249: the address it
    navigates to, or [None] when [encodeURIComponent] throws and nothing is
    assigned. *)
Definition escalate (a : App) : option jsstring :=
  match encodeURIComponent (lit "Krishimitra Query Escalation") with
  | Some subject =>
      match encodeURIComponent (escalation_body a) with
      | Some body => Some (mailto_prefix ++ subject ++ lit "&body=" ++ body)
      | None => None
      end
  | None => None
  end.

(** *** Sessions *)

(** The page with what the claims' functions do not touch: the fetcher calls
    that have not settled yet, the image shown in [imagePreviewContainer]
    (the element created for the file; its [src] is filled in later by the
    reader), and the address last assigned to [window.location.href]. *)
Record Page : Type := {
  page_app : App;
  pending : list Request;
  preview : option File;
  href : option jsstring
}.

Definition with_app (a : App) (p : Page) : Page :=
  {| page_app := a; pending := pending p; preview := preview p; href := href p |}.

(** [handleImageUpload(e)], with [file] for [e.target.files[0]]. *)
Definition handleImageUpload (file : option File) (p : Page) : Page :=
  match file with
  | None => p
  | Some f =>
      {| page_app := set_lastImage f (page_app p); pending := pending p;
         preview := Some f; href := href p |}
  end.

Fixpoint remove_nth {A : Type} (k : nat) (l : list A) : list A :=
  match l, k with
  | [], _ => []
  | _ :: r, O => r
  | x :: r, S k' => x :: remove_nth k' r
  end.

(** What happens on the page, one listener or callback at a time. *)
Inductive Event : Type :=
| Click                          (* the listener of sendBtn, up to its await *)
| Settle (k : nat) (now : Z)     (* the k-th pending promise settles *)
| Input (v : jsstring)           (* the user edits the query *)
| Language (v : jsstring)        (* the user picks a language *)
| Upload (file : option File)    (* change of imageInput *)
| Located (l : Location)         (* geolocation success *)
| Heard (speech : jsstring)      (* recognition result *)
| Tick (k : nat)                 (* the k-th running timer fires *)
| SaveFeedback
| Report
| Escalate.

Section Session.

Variable toLowerCase : jsstring -> jsstring.
Variable toLocaleString : Z -> jsstring.

Definition handle (e : Event) (p : Page) : Page :=
  match e with
  | Click =>
      match handleQuery_begin (page_app p) with
      | Blocked a' => with_app a' p
      | Pending req a' =>
          {| page_app := a'; pending := pending p ++ [req];
             preview := preview p; href := href p |}
      end
  | Settle k now =>
      match nth_error (pending p) k with
      | Some req =>
          {| page_app := match fetch toLowerCase req with
                    | resolves_after _ res =>
                        handleQuery_resume toLocaleString (req_query req)
                          (req_lang req) now res (page_app p)
                    | rejects _ => page_app p
                    end;
             pending := remove_nth k (pending p);
             preview := preview p; href := href p |}
      | None => p
      end
  | Input v => with_app (set_queryText v (page_app p)) p
  | Language v => with_app (set_langSelect v (page_app p)) p
  | Upload file => handleImageUpload file p
  | Located l => with_app (set_location l (page_app p)) p
  | Heard speech => with_app (onresult speech (page_app p)) p
  | Tick k => with_app (fire k (page_app p)) p
  | SaveFeedback =>
      with_app (alert (lit "Thanks! Your feedback helps us improve.") (page_app p)) p
  | Report =>
      with_app (alert (lit "Reported. A moderator will review this response.")
                  (page_app p)) p
  | Escalate =>
      match escalate (page_app p) with
      | Some target =>
          {| page_app := page_app p; pending := pending p; preview := preview p;
             href := Some target |}
      | None => p
      end
  end.

Definition run (es : list Event) (p : Page) : Page :=
  fold_left (fun p e => handle e p) es p.

End Session.

(** The stored text reads back as the history held in memory. *)
Definition in_sync (a : App) : Prop :=
  load (kr_history a) = Normal (json_of_history (history (context a))).

(** A page on which an image was chosen and the query then cleared. *)
Definition uploaded_page : Page :=
  handleImageUpload (Some (mkFile (lit "leaf.jpg")))
    {| page_app := fresh_app; pending := []; preview := None; href := None |}.

Definition fresh_page : Page :=
  {| page_app := fresh_app; pending := []; preview := None; href := None |}.

Definition kochi : Location := {| lat := 997 # 100; lon := 7628 # 100 |}.

(** ** Auxiliary notions of the further properties *)

(** The answer of the mocked fetcher to the query [q] typed on a page whose
    location is [loc]. *)
Definition answer_for (toLowerCase : jsstring -> jsstring)
  (q : jsstring) (loc : option Location) : jsstring :=
  let q' := toLowerCase q in
  let text :=
    if is_empty q' then text_prompt
    else if leaf_rule q' false then text_leafspot
    else if market_rule q' then text_market
    else if weather_rule q' then text_weather
    else text_fallback in
  if isSome loc then location_disclaimer ++ text else text.

(** The five units that [escapeHtml] rewrites. *)
Definition is_escaped (c : codeunit) : bool := (c =? 38) || is_markup_unit c.

(** [n] firings in a row of the [k]-th running timer. *)
Fixpoint fire_times (k n : nat) (a : App) : App :=
  match n with
  | O => a
  | S n' => fire_times k n' (fire k a)
  end.


(** The page while the timer started last reveals [text] and [k] units are
    shown, the timers [ts] started before it still running. *)
Definition revealing_at (ts : list Typing) (text : jsstring) (k : nat)
  (a : App) : App :=
  set_timers (ts ++ [{| typing_text := text; typing_i := k |}])
    (set_responseText (slice0 text k ++ cursor) a).

(** A page on which an earlier answer is still being revealed. *)
Definition revealing_app : App :=
  fire_first 1 (typewriterEffect (lit "old answer") fresh_app).

(** A unit that stands for itself in a URI component, or the percent sign of
    an escape. *)
Definition uri_safe (c : codeunit) : bool := is_unreserved c || (c =? 37).

(** Every surrogate of [s] is half of a pair. *)
Fixpoint well_paired (s : jsstring) : bool :=
  match s with
  | [] => true
  | c :: r =>
      if is_high c then
        match r with
        | d :: r' => is_low d && well_paired r'
        | [] => false
        end
      else negb (is_low c) && well_paired r
  end.

Definition rain_app : App := set_queryText (lit " Rain tomorrow ") fresh_app.
Definition leaf_photo_app : App :=
  set_lastImage (mkFile (lit "leaf.jpg"))
    (set_queryText (lit "my leaf is yellow") fresh_app).

Definition busy_session : list Event :=
  [Input (lit " Rain tomorrow "); Click; Tick 0; Settle 0 1730000000000;
   Tick 0; Upload (Some (mkFile (lit "leaf.jpg"))); Located kochi;
   Heard (lit "leaf spot"); Click; Escalate; Settle 0 1730000005000].

(** * Properties *)

(** ** Strings *)

Lemma starts_with_app (p b : jsstring) : starts_with p (p ++ b) = true.
Proof.
  induction p as [|c p IH]; simpl; [reflexivity|].
  now rewrite N.eqb_refl, IH.
Qed.

Lemma starts_with_split (p s : jsstring) :
  starts_with p s = true -> exists b, s = p ++ b.
Proof.
  revert s; induction p as [|c p IH]; intros s H.
  - now exists s.
  - destruct s as [|d s]; simpl in H; [discriminate|].
    apply andb_true_iff in H as [Hc Hp].
    apply N.eqb_eq in Hc; subst d.
    destruct (IH _ Hp) as [b ->].
    now exists b.
Qed.




Lemma includes_nil_l (p : jsstring) : includes [] p = is_empty p.
Proof. destruct p; reflexivity. Qed.

(** ** The fetcher *)

Section FetcherFacts.

Variable toLowerCase : jsstring -> jsstring.

(** With an object for [ctx] the rule chain never throws, and its result is
    the text of the first rule that applies. *)
Lemma mock_text_val (q : jsstring) (c : QueryCtx) :
  mock_text q (val c) =
  Normal (if is_empty q && negb (isSome (ctx_lastImage c)) then text_prompt
          else if leaf_rule q (isSome (ctx_lastImage c)) then text_leafspot
          else if market_rule q then text_market
          else if weather_rule q then text_weather
          else text_fallback).
Proof.
  unfold mock_text, leaf_rule, market_rule, weather_rule; simpl.
  destruct (is_empty q) eqn:Eq; simpl.
  - destruct (ctx_lastImage c); simpl; [|reflexivity].
    destruct q; [|discriminate].
    reflexivity.
  - destruct (includes q (lit "pesticide") || includes q (lit "leaf spot"));
      simpl; [reflexivity|].
    destruct (isSome (ctx_lastImage c) && includes q (lit "leaf")); simpl;
      [reflexivity|].
    destruct (includes q (lit "price") || includes q (lit "market"));
      [reflexivity|].
    destruct (includes q (lit "weather") || includes q (lit "rain"));
      reflexivity.
Qed.

Lemma mockAIResponse_val (query : nullable jsstring) (lang : jsstring)
  (c : QueryCtx) :
  exists text,
    mock_text (toLowerCase (or_empty query)) (val c) = Normal text /\
    mockAIResponse toLowerCase query lang (val c) =
    Normal (resolves_after 1200
              (ok_response (if isSome (ctx_location c)
                            then location_disclaimer ++ text else text))).
Proof.
  unfold mockAIResponse.
  rewrite mock_text_val.
  eexists; split; [reflexivity|].
  simpl. reflexivity.
Qed.

(** A query that names a pesticide or a leaf spot is answered by the first
    rule whatever [ctx] is: [ctx.lastImage] is not read. *)
Lemma mock_text_leaf_first (q : jsstring) (ctx : nullable QueryCtx) :
  includes q (lit "pesticide") || includes q (lit "leaf spot") = true ->
  mock_text q ctx = Normal text_leafspot.
Proof.
  intros H. unfold mock_text.
  assert (Hq : is_empty q = false).
  { destruct q; [|reflexivity]. rewrite !includes_nil_l in H. discriminate. }
  rewrite Hq; simpl. rewrite H; simpl. reflexivity.
Qed.

End FetcherFacts.

(** The fetcher always resolves. *)
Lemma getAIResponse_resolves (toLowerCase : jsstring -> jsstring)
  (query : nullable jsstring) (lang : jsstring) (imageFile : option File)
  (ctx : nullable QueryCtx) :
  exists d r,
    getAIResponse toLowerCase query lang imageFile ctx = resolves_after d r.
Proof.
  unfold getAIResponse, mockAIResponse.
  destruct (mock_text (toLowerCase (or_empty query)) ctx); simpl;
    do 2 eexists; reflexivity.
Qed.

Lemma error_free_fetch (toLowerCase : jsstring -> jsstring) (req : Request) :
  exists d r, fetch toLowerCase req = resolves_after d r.
Proof. apply getAIResponse_resolves. Qed.





(** None of the five texts starts like the location disclaimer. *)
Lemma texts_without_disclaimer (q : jsstring) (c : QueryCtx) (text : jsstring) :
  mock_text q (val c) = Normal text ->
  starts_with location_disclaimer text = false.
Proof.
  rewrite mock_text_val. intros [= <-].
  destruct (is_empty q && negb (isSome (ctx_lastImage c)));
    [vm_compute; reflexivity|].
  destruct (leaf_rule q (isSome (ctx_lastImage c)));
    [vm_compute; reflexivity|].
  destruct (market_rule q); [vm_compute; reflexivity|].
  destruct (weather_rule q); vm_compute; reflexivity.
Qed.








(** C7: with an object for [ctx], the answer of the mocked fetcher starts
    with the location disclaimer exactly when [ctx.location] is set, whatever
    rule produced the text. *)
Theorem mockAIResponse_location_prefix (toLowerCase : jsstring -> jsstring)
  (query : nullable jsstring) (lang : jsstring) (c : QueryCtx) :
  exists text r,
    mock_text (toLowerCase (or_empty query)) (val c) = Normal text /\
    mockAIResponse toLowerCase query lang (val c) =
      Normal (resolves_after 1200 r) /\
    res_answer r =
      (if isSome (ctx_location c) then location_disclaimer ++ text else text) /\
    starts_with location_disclaimer (res_answer r) = isSome (ctx_location c).
Proof.
  destruct (mockAIResponse_val toLowerCase query lang c) as (text & Ht & Hr).
  exists text. eexists. split; [exact Ht|]. split; [exact Hr|].
  cbn [ok_response res_answer]. split; [reflexivity|].
  destruct (isSome (ctx_location c)).
  - apply starts_with_app.
  - eapply texts_without_disclaimer, Ht.
Qed.

(** ** Submission *)

Section PageFacts.

Variable toLowerCase : jsstring -> jsstring.
Variable toLocaleString : Z -> jsstring.

Lemma renderHistory_keeps (a : App) :
  let a' := renderHistory toLocaleString a in
  context a' = context a /\ kr_history a' = kr_history a /\
  timers a' = timers a /\ alerts a' = alerts a /\ requests a' = requests a /\
  responseText_innerHTML (ui a') = responseText_innerHTML (ui a) /\
  responseMeta_textContent (ui a') = responseMeta_textContent (ui a).
Proof.
  unfold renderHistory.
  destruct (List.length (history (context a)) =? 0)%nat; simpl;
    repeat apply conj; reflexivity.
Qed.

Lemma save_to_history_effect (rec : HistoryRecord) (a : App) :
  let a' := save_to_history toLocaleString rec a in
  history (context a') = pushed (history (context a)) rec /\
  kr_history a' = Some (JSON_stringify (pushed (history (context a)) rec)) /\
  timers a' = timers a /\ alerts a' = alerts a /\ requests a' = requests a.
Proof.
  unfold save_to_history.
  set (h := if (10 <? _)%nat then _ else _).
  change h with (pushed (history (context a)) rec).
  set (b := setItem _ _).
  destruct (renderHistory_keeps b) as (Hc & Hk & Ht & Ha & Hr & _).
  cbv zeta. rewrite Hc, Hk, Ht, Ha, Hr.
  repeat apply conj; reflexivity.
Qed.

Lemma resume_success_effect (text lang : jsstring) (now : Z) (res : Response)
  (a : App) :
  res_error res = false ->
  let rec := {| rec_q := text; rec_lang := lang; rec_ts := now;
                rec_answer := res_answer res |} in
  let a' := handleQuery_resume toLocaleString text lang now res a in
  history (context a') = pushed (history (context a)) rec /\
  kr_history a' = Some (JSON_stringify (pushed (history (context a)) rec)) /\
  timers a' = timers a ++ [{| typing_text := res_answer res; typing_i := 0 |}].
Proof.
  intros He. unfold handleQuery_resume. rewrite He. cbv zeta.
  match goal with
  | |- context [save_to_history _ ?r ?b] =>
      destruct (save_to_history_effect r b) as (H1 & H2 & H3 & _)
  end.
  cbv zeta in H1, H2, H3. rewrite H1, H2, H3.
  repeat apply conj; reflexivity.
Qed.

End PageFacts.

(** A submission that is not refused: the request is made on the page in its
    loading state, with the history and the storage untouched, and the run
    goes on with the response of the fetcher. *)
Lemma handleQuery_fulfilled (toLowerCase : jsstring -> jsstring)
  (toLocaleString : Z -> jsstring) (now : Z) (a : App) :
  is_empty (trim (queryText_value (ui a))) && negb (isSome (lastImage (context a)))
    = false ->
  exists req a' d res,
    handleQuery_begin a = Pending req a' /\
    fetch toLowerCase req = resolves_after d res /\
    context a' = context a /\ kr_history a' = kr_history a /\
    requests a' = requests a ++ [req] /\
    handleQuery toLowerCase toLocaleString now a =
      handleQuery_resume toLocaleString (req_query req) (req_lang req) now
        res a'.
Proof.
  intros H. unfold handleQuery, handleQuery_begin. rewrite H.
  match goal with
  | |- context [Pending ?r ?b] => set (req := r); set (a' := b)
  end.
  destruct (error_free_fetch toLowerCase req) as (d & res & E).
  exists req, a', d, res. rewrite E.
  repeat apply conj; reflexivity.
Qed.

(** C6: a submission with a blank query and no image is refused before the
    [await]: the function returns after the alert, no request is made, and
    the history, the stored text and the rest of the page are as before. *)
Theorem handleQuery_blocks_empty_submission
  (toLowerCase : jsstring -> jsstring) (toLocaleString : Z -> jsstring)
  (now : Z) (a : App) :
  trim (queryText_value (ui a)) = [] ->
  lastImage (context a) = None ->
  handleQuery_begin a =
    Blocked (handleQuery toLowerCase toLocaleString now a) /\
  handleQuery toLowerCase toLocaleString now a =
    alert (lit "Please enter a question or upload an image.") a /\
  requests (handleQuery toLowerCase toLocaleString now a) = requests a /\
  history (context (handleQuery toLowerCase toLocaleString now a)) =
    history (context a) /\
  kr_history (handleQuery toLowerCase toLocaleString now a) = kr_history a /\
  alerts (handleQuery toLowerCase toLocaleString now a) =
    alerts a ++ [lit "Please enter a question or upload an image."].
Proof.
  intros Ht Hi.
  assert (B : handleQuery_begin a =
              Blocked (alert (lit "Please enter a question or upload an image.") a)).
  { unfold handleQuery_begin. rewrite Ht, Hi. reflexivity. }
  assert (E : handleQuery toLowerCase toLocaleString now a =
              alert (lit "Please enter a question or upload an image.") a).
  { unfold handleQuery. rewrite B. reflexivity. }
  rewrite E. repeat apply conj; try reflexivity. exact B.
Qed.

Lemma fresh_page_blocks_submission :
  (trim (queryText_value (ui fresh_app)) = [] /\
   lastImage (context fresh_app) = None) /\
  handleQuery_begin fresh_app =
    Blocked (handleQuery ascii_toLowerCase apostrophe_locale 0 fresh_app) /\
  handleQuery ascii_toLowerCase apostrophe_locale 0 fresh_app =
    alert (lit "Please enter a question or upload an image.") fresh_app /\
  requests (handleQuery ascii_toLowerCase apostrophe_locale 0 fresh_app) =
    requests fresh_app /\
  history (context (handleQuery ascii_toLowerCase apostrophe_locale 0 fresh_app)) =
    history (context fresh_app) /\
  kr_history (handleQuery ascii_toLowerCase apostrophe_locale 0 fresh_app) =
    kr_history fresh_app /\
  alerts (handleQuery ascii_toLowerCase apostrophe_locale 0 fresh_app) =
    alerts fresh_app ++ [lit "Please enter a question or upload an image."].
Proof.
  split; [split; reflexivity|].
  apply (handleQuery_blocks_empty_submission
           ascii_toLowerCase apostrophe_locale 0 fresh_app); reflexivity.
Defined.

(** C3: the fetcher always resolves, turning an exception of its [try] block
    into the apology with [error = true]; a response with [error] set is
    shown by the typewriter, and the history, the stored text and the
    rendered list stay as they were. *)
Theorem error_response_shown_not_recorded
  (toLowerCase : jsstring -> jsstring) (toLocaleString : Z -> jsstring)
  (query : nullable jsstring) (lang : jsstring) (imageFile : option File)
  (ctx : nullable QueryCtx)
  (text lang' : jsstring) (now : Z) (res : Response) (a : App) :
  res_error res = true ->
  (exists d r,
     getAIResponse toLowerCase query lang imageFile ctx = resolves_after d r /\
     (forall e, mockAIResponse toLowerCase query lang ctx = Throw e ->
                r = error_response) /\
     (forall p, mockAIResponse toLowerCase query lang ctx = Normal p ->
                p = resolves_after d r /\ res_error r = false)) /\
  context (handleQuery_resume toLocaleString text lang' now res a) =
    context a /\
  kr_history (handleQuery_resume toLocaleString text lang' now res a) =
    kr_history a /\
  historyList (ui (handleQuery_resume toLocaleString text lang' now res a)) =
    historyList (ui a) /\
  responseMeta_textContent
    (ui (handleQuery_resume toLocaleString text lang' now res a)) = MetaError /\
  responseText_innerHTML
    (ui (handleQuery_resume toLocaleString text lang' now res a)) = cursor /\
  timers (handleQuery_resume toLocaleString text lang' now res a) =
    timers a ++ [{| typing_text := res_answer res; typing_i := 0 |}].
Proof.
  intros He. split.
  - unfold getAIResponse.
    destruct (mockAIResponse toLowerCase query lang ctx) as [p|e] eqn:E.
    + unfold mockAIResponse in E.
      destruct (mock_text (toLowerCase (or_empty query)) ctx) as [t|e'];
        simpl in E; [|discriminate].
      injection E as <-.
      do 2 eexists. split; [reflexivity|]. split; [discriminate|].
      intros p [= <-]. split; reflexivity.
    + exists 0, error_response. split; [reflexivity|].
      split; [reflexivity|discriminate].
  - unfold handleQuery_resume. rewrite He.
    repeat apply conj; reflexivity.
Qed.

Lemma apology_shown_not_recorded :
  res_error error_response = true /\
  getAIResponse ascii_toLowerCase (val []) (lit "en") None null =
    resolves_after 0 error_response /\
  context (handleQuery_resume apostrophe_locale [] (lit "en") 0
             error_response overfull_app) = context overfull_app /\
  kr_history (handleQuery_resume apostrophe_locale [] (lit "en") 0
                error_response overfull_app) = kr_history overfull_app /\
  timers (handleQuery_resume apostrophe_locale [] (lit "en") 0
            error_response overfull_app) =
    [{| typing_text := text_apology; typing_i := 0 |}].
Proof.
  pose proof (error_response_shown_not_recorded
                ascii_toLowerCase apostrophe_locale (val []) (lit "en") None
                null [] (lit "en") 0%Z error_response overfull_app
                eq_refl) as (_ & Hc & Hk & _ & _ & _ & Ht).
  repeat apply conj; [reflexivity | reflexivity | exact Hc | exact Hk | exact Ht].
Defined.

(** Handed a [ctx] that carries the image, the mocked fetcher skips the prompt
    for a blank query and gives the fallback: no rule matches the empty
    string. *)
Lemma mockAIResponse_image_in_ctx (toLowerCase : jsstring -> jsstring)
  (query : nullable jsstring) (lang : jsstring) (c : QueryCtx) (f : File) :
  toLowerCase (or_empty query) = [] ->
  ctx_lastImage c = Some f ->
  mockAIResponse toLowerCase query lang (val c) =
  Normal (resolves_after 1200
            (ok_response (if isSome (ctx_location c)
                          then location_disclaimer ++ text_fallback
                          else text_fallback))).
Proof.
  intros Hq Hf.
  destruct (mockAIResponse_val toLowerCase query lang c) as (text & Ht & ->).
  rewrite mock_text_val, Hq, Hf in Ht. injection Ht as <-. reflexivity.
Qed.

(** The request that [handleQuery] makes never carries the image in its
    [ctx], so a blank query with an image is answered by the prompt. *)
Lemma image_only_request_prompted (toLowerCase : jsstring -> jsstring)
  (a : App) (f : File) :
  toLowerCase [] = [] ->
  trim (queryText_value (ui a)) = [] ->
  lastImage (context a) = Some f ->
  exists req a',
    handleQuery_begin a = Pending req a' /\
    req_image req = Some f /\
    ctx_lastImage (req_ctx req) = None /\
    fetch toLowerCase req =
      resolves_after 1200
        (ok_response (if isSome (location (context a))
                      then location_disclaimer ++ text_prompt
                      else text_prompt)).
Proof.
  intros Hl Ht Hf.
  set (req := {| req_query := []; req_lang := langSelect_value (ui a);
                 req_image := Some f;
                 req_ctx := {| ctx_location := location (context a);
                               ctx_lastImage := None |} |}).
  exists req, (log_request req (show_loading a)).
  split.
  { unfold handleQuery_begin. rewrite Ht, Hf. reflexivity. }
  split; [reflexivity|]. split; [reflexivity|].
  unfold fetch, getAIResponse.
  destruct (mockAIResponse_val toLowerCase (val (req_query req)) (req_lang req)
              (req_ctx req)) as (text & Hm & Hr).
  rewrite Hr.
  rewrite mock_text_val in Hm.
  unfold req in Hm. cbn [req_query req_ctx or_empty] in Hm.
  rewrite Hl in Hm.
  injection Hm as <-. reflexivity.
Qed.

(** C10, the code at the failing input: on a page with a photo chosen and the
    query left blank the submission goes through, the request carries the
    file but its [ctx] has no [lastImage], and the fetcher resolves with the
    prompt for input, which is then recorded as the answer; the fallback is
    what [mockAIResponse] gives once the image is in [ctx]. *)
Theorem image_only_submission_gets_prompt :
  trim (queryText_value (ui image_only_app)) = [] /\
  lastImage (context image_only_app) = Some (mkFile (lit "leaf.jpg")) /\
  (exists req a',
     handleQuery_begin image_only_app = Pending req a' /\
     req_image req = Some (mkFile (lit "leaf.jpg")) /\
     ctx_lastImage (req_ctx req) = None /\
     fetch ascii_toLowerCase req =
       resolves_after 1200 (ok_response text_prompt)) /\
  history (context (handleQuery ascii_toLowerCase apostrophe_locale 0
                      image_only_app)) =
    [{| rec_q := []; rec_lang := lit "en"; rec_ts := 0;
        rec_answer := text_prompt |}] /\
  mockAIResponse ascii_toLowerCase (val []) (lit "en")
    (val {| ctx_location := None;
            ctx_lastImage := Some (mkFile (lit "leaf.jpg")) |}) =
    Normal (resolves_after 1200 (ok_response text_fallback)) /\
  text_prompt <> text_fallback.
Proof.
  repeat apply conj; try reflexivity.
  - do 2 eexists. repeat apply conj; reflexivity.
  - vm_compute. discriminate.
Qed.

(** ** The bounded history *)

Lemma last_n_short {A : Type} (n : nat) (l : list A) :
  (List.length l <= n)%nat -> last_n n l = l.
Proof.
  intros H. unfold last_n.
  replace (List.length l - n)%nat with 0%nat by lia. reflexivity.
Qed.

Lemma last_n_length {A : Type} (n : nat) (l : list A) :
  List.length (last_n n l) = Nat.min n (List.length l).
Proof. unfold last_n. rewrite length_skipn. lia. Qed.

Lemma last_n_app {A : Type} (n : nat) (l r : list A) :
  last_n n (last_n n l ++ r) = last_n n (l ++ r).
Proof.
  unfold last_n.
  rewrite !length_app, length_skipn.
  rewrite !skipn_app, skipn_skipn, length_skipn.
  f_equal.
  - f_equal. lia.
  - f_equal. lia.
Qed.

Lemma pushed_last_n (h : list HistoryRecord) (rec : HistoryRecord) :
  (List.length h <= 10)%nat -> pushed h rec = last_n 10 (h ++ [rec]).
Proof.
  intros H. unfold pushed.
  destruct (10 <? List.length (h ++ [rec]))%nat eqn:E.
  - apply Nat.ltb_lt in E. rewrite length_app in E; simpl in E.
    unfold last_n. rewrite length_app; simpl.
    replace (List.length h + 1 - 10)%nat with 1%nat by lia.
    reflexivity.
  - apply Nat.ltb_ge in E. now rewrite last_n_short.
Qed.

Lemma resume_all_history (toLocaleString : Z -> jsstring)
  (fs : list Fulfilled) (a : App) :
  (List.length (history (context a)) <= 10)%nat ->
  Forall (fun f => res_error (f_res f) = false) fs ->
  history (context (resume_all toLocaleString fs a)) =
  last_n 10 (history (context a) ++ List.map record_of fs).
Proof.
  intros Hlen Hok. revert a Hlen.
  induction Hok as [|f fs Hf Hok IH]; intros a Hlen.
  - simpl. rewrite app_nil_r. now rewrite last_n_short.
  - destruct (resume_success_effect toLocaleString (f_text f) (f_lang f)
                (f_now f) (f_res f) a Hf) as (Hh & _).
    cbv zeta in Hh.
    change (resume_all toLocaleString (f :: fs) a)
      with (resume_all toLocaleString fs
              (handleQuery_resume toLocaleString (f_text f) (f_lang f)
                 (f_now f) (f_res f) a)).
    rewrite IH; rewrite Hh.
    + change (List.map record_of (f :: fs))
        with (record_of f :: List.map record_of fs).
      change {| rec_q := f_text f; rec_lang := f_lang f; rec_ts := f_now f;
                rec_answer := res_answer (f_res f) |} with (record_of f).
      rewrite pushed_last_n by exact Hlen.
      rewrite last_n_app, <- app_assoc. reflexivity.
    + rewrite pushed_last_n by exact Hlen.
      rewrite last_n_length. lia.
Qed.

Lemma resume_all_stored (toLocaleString : Z -> jsstring)
  (fs : list Fulfilled) (a : App) :
  fs <> [] ->
  Forall (fun f => res_error (f_res f) = false) fs ->
  kr_history (resume_all toLocaleString fs a) =
  Some (JSON_stringify (history (context (resume_all toLocaleString fs a)))).
Proof.
  intros Hne Hok.
  destruct (exists_last Hne) as (fs' & f & ->).
  apply Forall_app in Hok as [_ Hf].
  inversion Hf as [|? ? Hf' _]; subst.
  unfold resume_all. rewrite fold_left_app. simpl.
  match goal with
  | |- context [handleQuery_resume _ _ _ _ _ ?b] =>
      destruct (resume_success_effect toLocaleString (f_text f) (f_lang f)
                  (f_now f) (f_res f) b Hf') as (Hh & Hk & _)
  end.
  cbv zeta in Hh, Hk. rewrite Hh, Hk. reflexivity.
Qed.

(** C1, as amended: starting from a history of at most ten records, after any
    number of successful submissions the history holds the last ten of the
    old records followed by the new ones, in order of insertion; it is never
    longer than ten, it is what the storage holds, and after eleven
    submissions it is exactly the records of the second to the eleventh. *)
Theorem history_bounded_fifo (toLocaleString : Z -> jsstring)
  (fs : list Fulfilled) (a : App) :
  (List.length (history (context a)) <= 10)%nat ->
  Forall (fun f => res_error (f_res f) = false) fs ->
  (List.length (history (context (resume_all toLocaleString fs a))) <= 10)%nat /\
  history (context (resume_all toLocaleString fs a)) =
    last_n 10 (history (context a) ++ List.map record_of fs) /\
  (fs <> [] ->
   kr_history (resume_all toLocaleString fs a) =
     Some (JSON_stringify
             (history (context (resume_all toLocaleString fs a))))) /\
  (List.length fs = 11%nat ->
   history (context (resume_all toLocaleString fs a)) =
     tl (List.map record_of fs)).
Proof.
  intros Hlen Hok.
  pose proof (resume_all_history toLocaleString fs a Hlen Hok) as Hh.
  repeat apply conj.
  - rewrite Hh, last_n_length. lia.
  - exact Hh.
  - intros Hne. now apply resume_all_stored.
  - intros H11. rewrite Hh. unfold last_n.
    rewrite length_app, length_map, H11.
    replace (List.length (history (context a)) + 11 - 10)%nat
      with (List.length (history (context a)) + 1)%nat by lia.
    rewrite skipn_app, skipn_all2 by lia.
    replace (List.length (history (context a)) + 1
             - List.length (history (context a)))%nat with 1%nat by lia.
    simpl. destruct (List.map record_of fs); reflexivity.
Qed.

Lemma eleven_on_fresh_page :
  ((List.length (history (context fresh_app)) <= 10)%nat /\
   Forall (fun f => res_error (f_res f) = false) eleven_fulfilled) /\
  history (context (resume_all apostrophe_locale eleven_fulfilled fresh_app)) =
    List.map sample_record [2; 3; 4; 5; 6; 7; 8; 9; 10; 11]%Z.
Proof.
  assert (H0 : (List.length (history (context fresh_app)) <= 10)%nat)
    by (simpl; lia).
  assert (H1 : Forall (fun f => res_error (f_res f) = false) eleven_fulfilled)
    by (repeat constructor).
  split; [split; assumption|].
  destruct (history_bounded_fifo apostrophe_locale eleven_fulfilled fresh_app
              H0 H1) as (_ & _ & _ & H).
  rewrite (H eq_refl). reflexivity.
Defined.

(** C1, the claim as stated fails for a starting history of more than ten
    records, which the page reads from storage as it is: one more successful
    submission leaves eleven records, and after eleven submissions all eleven
    new records are held, the first among them. *)
Lemma overfull_history_stays_overfull :
  load (kr_history overfull_app) =
    Normal (json_of_history (history (context overfull_app))) /\
  List.length (history (context overfull_app)) = 11%nat /\
  List.length
    (history (context (handleQuery_resume apostrophe_locale (lit "rain 12")
                         (lit "en") 1730000000012 (ok_response text_weather)
                         overfull_app))) = 11%nat /\
  history (context (resume_all apostrophe_locale eleven_fulfilled overfull_app)) =
    List.map record_of eleven_fulfilled /\
  In (record_of (sample_fulfilled 1))
     (history (context (resume_all apostrophe_locale eleven_fulfilled
                          overfull_app))).
Proof.
  split; [vm_compute; reflexivity|].
  split; [reflexivity|].
  split; [vm_compute; reflexivity|].
  assert (E : history (context (resume_all apostrophe_locale eleven_fulfilled
                                  overfull_app)) =
              List.map record_of eleven_fulfilled)
    by (vm_compute; reflexivity).
  split; [exact E|].
  rewrite E. left. reflexivity.
Qed.

(** ** The typewriter *)


Lemma fire_first_add (n m : nat) (a : App) :
  fire_first (n + m) a = fire_first m (fire_first n a).
Proof.
  revert a; induction n as [|n IH]; intros a; [reflexivity|].
  simpl. apply IH.
Qed.

Lemma fire_first_idle (m : nat) (a : App) :
  timers a = [] -> fire_first m a = a.
Proof.
  intros H. induction m as [|m IH]; [reflexivity|].
  simpl. unfold fire at 1. rewrite H. exact IH.
Qed.




Lemma fire_times_succ (k n : nat) (a : App) :
  fire_times k (S n) a = fire k (fire_times k n a).
Proof.
  revert a; induction n as [|n IH]; intros a; [reflexivity|].
  change (fire_times k (S (S n)) a) with (fire_times k (S n) (fire k a)).
  now rewrite IH.
Qed.

Lemma fire_times_first (n : nat) (a : App) :
  fire_times 0 n a = fire_first n a.
Proof.
  revert a; induction n as [|n IH]; intros a; [reflexivity|].
  cbn [fire_times fire_first]. apply IH.
Qed.

Lemma fire_times_add (k n m : nat) (a : App) :
  fire_times k (n + m) a = fire_times k m (fire_times k n a).
Proof.
  revert a; induction n as [|n IH]; intros a; [reflexivity|].
  simpl. apply IH.
Qed.

Lemma fire_times_idle (k m : nat) (a : App) :
  nth_error (timers a) k = None -> fire_times k m a = a.
Proof.
  intros H. induction m as [|m IH]; [reflexivity|].
  cbn [fire_times]. unfold fire at 1. rewrite H. exact IH.
Qed.

Lemma nth_error_last_timer (ts : list Typing) (t : Typing) :
  nth_error (ts ++ [t]) (List.length ts) = Some t.
Proof.
  induction ts as [|x ts IH]; [reflexivity|]. exact IH.
Qed.

Lemma update_timer_last (ts : list Typing) (t : Typing) (t' : option Typing) :
  update_timer (List.length ts) t' (ts ++ [t]) =
  ts ++ match t' with Some x => [x] | None => [] end.
Proof.
  induction ts as [|x ts IH]; [now destruct t'|].
  cbn [List.length app update_timer]. now rewrite IH.
Qed.

Lemma typewriterEffect_revealing_at (text : jsstring) (a : App) :
  typewriterEffect text a = revealing_at (timers a) text 0 a.
Proof. reflexivity. Qed.

Lemma fire_revealing_at (ts : list Typing) (text : jsstring) (k : nat)
  (a : App) :
  fire (List.length ts) (revealing_at ts text k a) =
  if (k <? jslength text)%nat then revealing_at ts text (S k) a
  else set_timers ts (set_responseText text a).
Proof.
  unfold fire, revealing_at. cbn [timers set_timers].
  rewrite nth_error_last_timer. unfold typing_tick.
  cbn [typing_text typing_i].
  destruct (k <? jslength text)%nat;
    rewrite update_timer_last; [|now rewrite app_nil_r].
  now rewrite Nat.add_1_r.
Qed.

Lemma fire_times_revealing_at (ts : list Typing) (text : jsstring) (k : nat)
  (a : App) :
  (k <= jslength text)%nat ->
  fire_times (List.length ts) k (revealing_at ts text 0 a) =
  revealing_at ts text k a.
Proof.
  induction k as [|k IH]; intros Hk; [reflexivity|].
  rewrite fire_times_succ, IH, fire_revealing_at by lia.
  assert (E : (k <? jslength text)%nat = true) by (apply Nat.ltb_lt; lia).
  now rewrite E.
Qed.

Lemma fire_assigns (j : nat) (t : Typing) (b : App) :
  nth_error (timers b) j = Some t ->
  responseText_innerHTML (ui (fire j b)) = fst (typing_tick t).
Proof.
  intros H. unfold fire. rewrite H. now destruct (typing_tick t).
Qed.

(** C8, as amended: on any page, whatever timers are already running, the
    call starts a timer of its own, the last of the list; after [k] firings
    in a row of that timer, for [k] up to the length [N] of the answer, the
    string assigned to [responseText.innerHTML] is the first [k] code units
    of the answer followed by the cursor markup, and the timer runs with its
    counter at [k]; the firing after that, the [N+1]-th, assigns the answer
    without cursor and clears the timer, the timers started earlier being
    left as they were, and so the page stays when no other timer fires; and
    on any page, a firing of a timer that holds the answer and the counter
    [i] assigns the first [i+1] units followed by the cursor when [i < N],
    the answer alone otherwise.  The answer is assigned as markup, without
    escaping: the statement is about the string assigned, not about the text
    a browser renders from it. *)
Theorem typewriter_reveal (text : jsstring) (k : nat) (a : App) :
  (k <= jslength text)%nat ->
  let own := List.length (timers a) in
  let started := typewriterEffect text a in
  responseText_innerHTML (ui (fire_times own k started)) =
    slice0 text k ++ cursor /\
  jslength (slice0 text k) = k /\
  timers (fire_times own k started) =
    timers a ++ [{| typing_text := text; typing_i := k |}] /\
  (forall m,
     responseText_innerHTML
       (ui (fire_times own (S (jslength text) + m) started)) = text /\
     timers (fire_times own (S (jslength text) + m) started) = timers a) /\
  (forall (b : App) (j i : nat),
     nth_error (timers b) j = Some {| typing_text := text; typing_i := i |} ->
     responseText_innerHTML (ui (fire j b)) =
       if (i <? jslength text)%nat then slice0 text (S i) ++ cursor
       else text).
Proof.
  intros Hk. cbv zeta. rewrite typewriterEffect_revealing_at.
  rewrite fire_times_revealing_at by exact Hk.
  split; [reflexivity|].
  split; [unfold slice0, jslength in *; rewrite length_firstn; lia|].
  split; [reflexivity|].
  split.
  - intros m. rewrite fire_times_add, fire_times_succ.
    rewrite fire_times_revealing_at, fire_revealing_at by lia.
    rewrite Nat.ltb_irrefl, fire_times_idle.
    + split; reflexivity.
    + cbn [timers set_timers]. apply nth_error_None. lia.
  - intros b j i H. rewrite (fire_assigns j _ b H).
    unfold typing_tick. cbn [typing_text typing_i].
    destruct (i <? jslength text)%nat; [|reflexivity].
    now rewrite Nat.add_1_r.
Qed.

Lemma typewriter_reveal_ab :
  (1 <= jslength (lit "ab"))%nat /\
  timers revealing_app =
    [{| typing_text := lit "old answer"; typing_i := 1 |}] /\
  responseText_innerHTML
    (ui (fire_times 1 1 (typewriterEffect (lit "ab") revealing_app))) =
    lit "a" ++ cursor /\
  responseText_innerHTML
    (ui (fire_times 1 3 (typewriterEffect (lit "ab") revealing_app))) =
    lit "ab" /\
  timers (fire_times 1 3 (typewriterEffect (lit "ab") revealing_app)) =
    [{| typing_text := lit "old answer"; typing_i := 1 |}].
Proof.
  assert (H : (1 <= jslength (lit "ab"))%nat) by (vm_compute; lia).
  destruct (typewriter_reveal (lit "ab") 1 revealing_app H)
    as (H1 & _ & _ & H2 & _).
  split; [exact H|]. split; [reflexivity|].
  split; [exact H1|]. exact (H2 0%nat).
Defined.

(** C8, the claim as stated fails: after [N = 2] firings the answer "ab" is
    shown with the cursor still behind it and the timer still running; the
    displayed prefix is then the whole answer, not a proper prefix. *)
Lemma cursor_remains_after_N_steps :
  jslength (lit "ab") = 2%nat /\
  responseText_innerHTML (ui (fire_first 2 (typewriterEffect (lit "ab") fresh_app))) =
    lit "ab" ++ cursor /\
  responseText_innerHTML (ui (fire_first 2 (typewriterEffect (lit "ab") fresh_app))) <>
    lit "ab" /\
  timers (fire_first 2 (typewriterEffect (lit "ab") fresh_app)) =
    [{| typing_text := lit "ab"; typing_i := 2 |}].
Proof.
  repeat apply conj; try reflexivity.
  vm_compute. discriminate.
Qed.

(** ** Escaping *)

Lemma amp_ok_entity (s a b : jsstring) :
  amp_ok s = true -> s = a ++ 38 :: b ->
  exists e b', In e entities /\ 38 :: b = e ++ b'.
Proof.
  revert s; induction a as [|x a IH]; intros s H E; subst s.
  - simpl app in H. cbn [amp_ok] in H.
    apply andb_true_iff in H as [H _].
    rewrite N.eqb_refl in H. simpl negb in H. rewrite orb_false_l in H.
    apply existsb_exists in H as (e & He & Hs).
    destruct (starts_with_split _ _ Hs) as [b' Hb].
    now exists e, b'.
  - simpl app in H. cbn [amp_ok] in H.
    apply andb_true_iff in H as [_ H].
    now apply (IH _ H).
Qed.

Lemma escape_unit_safe (c : codeunit) (rest : jsstring) :
  forallb (fun x => negb (is_markup_unit x)) (escape_unit c) = true /\
  (amp_ok rest = true -> amp_ok (escape_unit c ++ rest) = true) /\
  escape_unit c <> [].
Proof.
  unfold escape_unit.
  destruct (c =? 38) eqn:E38;
    [repeat apply conj; [reflexivity | intros H; vm_compute; exact H | discriminate]|].
  destruct (c =? 60) eqn:E60;
    [repeat apply conj; [reflexivity | intros H; vm_compute; exact H | discriminate]|].
  destruct (c =? 62) eqn:E62;
    [repeat apply conj; [reflexivity | intros H; vm_compute; exact H | discriminate]|].
  destruct (c =? 34) eqn:E34;
    [repeat apply conj; [reflexivity | intros H; vm_compute; exact H | discriminate]|].
  destruct (c =? 39) eqn:E39;
    [repeat apply conj; [reflexivity | intros H; vm_compute; exact H | discriminate]|].
  repeat apply conj.
  - simpl. unfold is_markup_unit. now rewrite E60, E62, E34, E39.
  - intros H. simpl app. cbn [amp_ok]. now rewrite E38, H.
  - discriminate.
Qed.

Lemma escapeHtml_forallb (s : nullable jsstring) :
  forallb (fun x => negb (is_markup_unit x)) (escapeHtml s) = true.
Proof.
  unfold escapeHtml.
  induction (or_empty s) as [|c r IH]; [reflexivity|].
  simpl flat_map. rewrite forallb_app, IH.
  now rewrite (proj1 (escape_unit_safe c [])).
Qed.

Lemma escapeHtml_amp_ok (s : nullable jsstring) : amp_ok (escapeHtml s) = true.
Proof.
  unfold escapeHtml.
  induction (or_empty s) as [|c r IH]; [reflexivity|].
  simpl flat_map. now apply escape_unit_safe.
Qed.


Lemma escapeHtml_units (s : nullable jsstring) :
  Forall (fun c => c <> 60 /\ c <> 62 /\ c <> 34 /\ c <> 39) (escapeHtml s).
Proof.
  apply Forall_forall. intros c Hc.
  pose proof (escapeHtml_forallb s) as H.
  rewrite forallb_forall in H. specialize (H c Hc).
  unfold is_markup_unit in H.
  apply negb_true_iff in H.
  repeat (apply orb_false_iff in H as [H ?]).
  repeat apply conj; apply N.eqb_neq; assumption.
Qed.

(** C9: [escapeHtml] is total; [null], [undefined] and the empty string give
    the empty string; its result holds none of the units [<], [>], the double
    and the single quote, and each [&] in it starts one of the five
    entities. *)
Theorem escapeHtml_neutralizes (s : nullable jsstring) :
  escapeHtml undefined = [] /\
  escapeHtml null = [] /\
  Forall (fun c => c <> 60 /\ c <> 62 /\ c <> 34 /\ c <> 39) (escapeHtml s) /\
  (forall a b, escapeHtml s = a ++ 38 :: b ->
               exists e b', In e entities /\ 38 :: b = e ++ b').
Proof.
  split; [reflexivity|]. split; [reflexivity|]. split.
  - apply escapeHtml_units.
  - intros a b E. exact (amp_ok_entity _ a b (escapeHtml_amp_ok s) E).
Qed.

(** ** The rendered list *)

Lemma fold_left_append {A B : Type} (f : A -> B) (l : list A) (acc : list B) :
  fold_left (fun children item => children ++ [f item]) l acc =
  acc ++ List.map f l.
Proof.
  revert acc; induction l as [|x l IH]; intros acc; simpl.
  - now rewrite app_nil_r.
  - rewrite IH, <- app_assoc. reflexivity.
Qed.




Lemma escape_unit_plain (c : codeunit) :
  is_escaped c = false -> escape_unit c = [c].
Proof.
  unfold is_escaped, is_markup_unit, escape_unit. intros H.
  destruct (c =? 38); [discriminate|].
  destruct (c =? 60); [discriminate|].
  destruct (c =? 62); [discriminate|].
  destruct (c =? 34); [discriminate|].
  destruct (c =? 39); [discriminate|].
  reflexivity.
Qed.



Lemma uint_units_plain (d : Decimal.uint) :
  forallb (fun c => negb (is_escaped c)) (uint_units d) = true.
Proof. induction d; [reflexivity|exact IHd..]. Qed.

Lemma Z_units_plain (z : Z) :
  forallb (fun c => negb (is_escaped c)) (Z_units z) = true.
Proof.
  unfold Z_units, N_units. destruct (z <? 0)%Z; apply uint_units_plain.
Qed.

Lemma two_digits_plain (n : Z) :
  forallb (fun c => negb (is_escaped c)) (two_digits n) = true.
Proof.
  unfold two_digits, N_units. destruct (n <? 10)%Z; apply uint_units_plain.
Qed.

(** The date text of the en-US host holds none of the five units that
    [escapeHtml] rewrites, whatever the instant. *)
Lemma toLocaleString_en_US_plain (ts : Z) :
  forallb (fun c => negb (is_escaped c)) (toLocaleString_en_US ts) = true.
Proof.
  unfold toLocaleString_en_US. cbv zeta.
  rewrite !forallb_app, !Z_units_plain, !two_digits_plain.
  now destruct (_ <? 12)%Z.
Qed.

(** Four instants as the en-US host prints them: that of the first sample
    record, the epoch, a leap day and the last second of a year. *)
Lemma toLocaleString_en_US_sample :
  toLocaleString_en_US 1730000000001 = lit "10/27/2024, 3:33:20 AM" /\
  toLocaleString_en_US 0 = lit "1/1/1970, 12:00:00 AM" /\
  toLocaleString_en_US 951825599000 = lit "2/29/2000, 11:59:59 AM" /\
  toLocaleString_en_US 1735689599999 = lit "12/31/2024, 11:59:59 PM".
Proof. repeat apply conj; vm_compute; reflexivity. Qed.



(** ** The fuel of the parser is never what makes it fail *)

Lemma skip_ws_length (s : jsstring) :
  (List.length (skip_ws s) <= List.length s)%nat.
Proof.
  induction s as [|c s IH]; [reflexivity|].
  cbn [skip_ws]. destruct (is_json_space c); cbn [List.length]; lia.
Qed.

Lemma skip_ws_cons (s : jsstring) (c : codeunit) (r : jsstring) :
  skip_ws s = c :: r -> (List.length r < List.length s)%nat.
Proof.
  intros H. pose proof (skip_ws_length s) as L. rewrite H in L.
  cbn [List.length] in L. lia.
Qed.

Lemma cons_unit_Some (c : codeunit) (o : option (jsstring * jsstring))
  (str r : jsstring) :
  cons_unit c o = Some (str, r) -> exists str', o = Some (str', r).
Proof.
  destruct o as [[s' r']|]; [|discriminate].
  intros [= _ <-]. now exists s'.
Qed.

Lemma parse_string_body_consuming : consuming parse_string_body.
Proof.
  assert (G : forall n s str r, (List.length s <= n)%nat ->
                parse_string_body s = Some (str, r) ->
                (List.length r < List.length s)%nat).
  { induction n as [|n IH]; intros s str r Hn H.
    - destruct s; [discriminate|cbn [List.length] in Hn; lia].
    - destruct s as [|c s]; [discriminate|].
      cbn [parse_string_body] in H. cbn [List.length] in *.
      destruct (c =? 34); [injection H as _ <-; lia|].
      destruct (c =? 92).
      + destruct s as [|e s1]; [discriminate|]. cbn [List.length] in *.
        destruct (e =? 117).
        * destruct s1 as [|h1 [|h2 [|h3 [|h4 s2]]]]; try discriminate.
          cbn [List.length] in *.
          destruct (hex4 h1 h2 h3 h4); [|discriminate].
          apply cons_unit_Some in H as [str' H].
          apply IH in H; lia.
        * destruct (simple_escape e); [|discriminate].
          apply cons_unit_Some in H as [str' H].
          apply IH in H; lia.
      + destruct (c <? 32); [discriminate|].
        apply cons_unit_Some in H as [str' H].
        apply IH in H; lia. }
  intros s str r H. now apply (G (List.length s) s str r).
Qed.

Lemma nb_digits_digit_cons (c : codeunit) (d : Decimal.uint) :
  Decimal.nb_digits (digit_cons c d) = S (Decimal.nb_digits d).
Proof.
  unfold digit_cons.
  repeat match goal with |- context [if ?b then _ else _] => destruct b end;
    reflexivity.
Qed.

Lemma take_digits_length (s : jsstring) (d : Decimal.uint) (r : jsstring) :
  take_digits s = (d, r) ->
  (List.length r + Decimal.nb_digits d = List.length s)%nat.
Proof.
  revert d r; induction s as [|c s IH]; intros d r H.
  - injection H as <- <-. reflexivity.
  - cbn [take_digits] in H. destruct (is_digit c).
    + destruct (take_digits s) as [d' r'].
      injection H as <- <-. rewrite nb_digits_digit_cons.
      specialize (IH d' r' eq_refl). cbn [List.length]. lia.
    + injection H as <- <-. cbn. lia.
Qed.

Lemma parse_number_consuming : consuming parse_number.
Proof.
  intros s v r H. unfold parse_number in H.
  destruct (parse_sign s) as [neg s1] eqn:Es.
  assert (L1 : (List.length s1 <= List.length s)%nat).
  { unfold parse_sign in Es. destruct s as [|c t]; [now injection Es as _ <-|].
    destruct (c =? 45); injection Es as _ <-; cbn [List.length]; lia. }
  destruct (take_digits s1) as [int s2] eqn:Ed.
  apply take_digits_length in Ed.
  destruct (int_part_ok int) eqn:Ei; [|discriminate].
  assert (L2 : (List.length s2 < List.length s1)%nat).
  { destruct int; [discriminate|cbn [Decimal.nb_digits] in Ed; lia ..]. }
  destruct (parse_fraction s2) as [[frac s3]|] eqn:Ef; [|discriminate].
  assert (L3 : (List.length s3 <= List.length s2)%nat).
  { unfold parse_fraction in Ef. destruct s2 as [|c t]; [now injection Ef as _ <-|].
    destruct (c =? 46).
    - destruct (take_digits t) as [d rest] eqn:Et.
      apply take_digits_length in Et.
      destruct (is_nil d); [discriminate|]. injection Ef as _ <-.
      cbn [List.length]. lia.
    - now injection Ef as _ <-. }
  destruct (parse_exponent s3) as [[e s4]|] eqn:Ee; [|discriminate].
  assert (L4 : (List.length s4 <= List.length s3)%nat).
  { assert (X : forall b t z u, parse_exp_digits b t = Some (z, u) ->
                  (List.length u <= List.length t)%nat).
    { intros b t z u X. unfold parse_exp_digits in X.
      destruct (take_digits t) as [d rest] eqn:Et.
      apply take_digits_length in Et.
      destruct (is_nil d); [discriminate|]. injection X as _ <-. lia. }
    unfold parse_exponent in Ee. destruct s3 as [|c t]; [now injection Ee as _ <-|].
    destruct ((c =? 101) || (c =? 69)); [|now injection Ee as _ <-].
    destruct t as [|c' t']; [discriminate|].
    destruct (c' =? 43); [apply X in Ee; cbn [List.length] in *; lia|].
    destruct (c' =? 45); apply X in Ee; cbn [List.length] in *; lia. }
  injection H as _ <-. lia.
Qed.

Section FuelFacts.

Variables pv pv' : jsstring -> option (JSON * jsstring).
Hypothesis pv_consuming : consuming pv.

Lemma parse_elements_consuming (n : nat) : consuming (parse_elements pv n).
Proof.
  induction n as [|n IH]; intros s vs r H; [discriminate|].
  cbn [parse_elements] in H.
  destruct (pv s) as [[v r1]|] eqn:E; [|discriminate].
  apply pv_consuming in E.
  destruct (skip_ws r1) as [|c r2] eqn:W; [discriminate|].
  apply skip_ws_cons in W.
  destruct (c =? 44).
  - destruct (parse_elements pv n r2) as [[vs' r3]|] eqn:P; [|discriminate].
    apply IH in P. injection H as _ <-. lia.
  - destruct (c =? 93); [|discriminate]. injection H as _ <-. lia.
Qed.

Lemma parse_members_consuming (n : nat) : consuming (parse_members pv n).
Proof.
  induction n as [|n IH]; intros s ms r H; [discriminate|].
  cbn [parse_members] in H.
  destruct (skip_ws s) as [|q r0] eqn:W0; [discriminate|].
  apply skip_ws_cons in W0.
  destruct (q =? 34); [|discriminate].
  destruct (parse_string_body r0) as [[k r1]|] eqn:K; [|discriminate].
  apply parse_string_body_consuming in K.
  destruct (skip_ws r1) as [|c r2] eqn:W1; [discriminate|].
  apply skip_ws_cons in W1.
  destruct (c =? 58); [|discriminate].
  destruct (pv r2) as [[v r3]|] eqn:E; [|discriminate].
  apply pv_consuming in E.
  destruct (skip_ws r3) as [|c' r4] eqn:W3; [discriminate|].
  apply skip_ws_cons in W3.
  destruct (c' =? 44).
  - destruct (parse_members pv n r4) as [[ms' r5]|] eqn:P; [|discriminate].
    apply IH in P. injection H as _ <-. lia.
  - destruct (c' =? 125); [|discriminate]. injection H as _ <-. lia.
Qed.

Lemma parse_value_step_consuming : consuming (parse_value_step pv).
Proof.
  intros s v r H. unfold parse_value_step in H.
  destruct (skip_ws s) as [|c t] eqn:W; [discriminate|].
  apply skip_ws_cons in W.
  destruct (c =? 34).
  { destruct (parse_string_body t) as [[str rest]|] eqn:K; [|discriminate].
    apply parse_string_body_consuming in K. injection H as _ <-. lia. }
  destruct (c =? 91).
  { destruct (skip_ws t) as [|c' t'] eqn:W'; [discriminate|].
    apply skip_ws_cons in W'.
    destruct (c' =? 93); [injection H as _ <-; lia|].
    destruct (parse_elements pv (List.length t) t) as [[vs rest]|] eqn:P;
      [|discriminate].
    apply parse_elements_consuming in P. injection H as _ <-. lia. }
  destruct (c =? 123).
  { destruct (skip_ws t) as [|c' t'] eqn:W'; [discriminate|].
    apply skip_ws_cons in W'.
    destruct (c' =? 125); [injection H as _ <-; lia|].
    destruct (parse_members pv (List.length t) t) as [[ms rest]|] eqn:P;
      [|discriminate].
    apply parse_members_consuming in P. injection H as _ <-. lia. }
  assert (K : forall n, (List.length (skipn n t) <= List.length t)%nat)
    by (intros n; rewrite length_skipn; lia).
  destruct (starts_with (lit "true") (c :: t)).
  { assert (E : r = skipn 3 t) by congruence.
    rewrite E. specialize (K 3%nat). lia. }
  destruct (starts_with (lit "false") (c :: t)).
  { assert (E : r = skipn 4 t) by congruence.
    rewrite E. specialize (K 4%nat). lia. }
  destruct (starts_with (lit "null") (c :: t)).
  { assert (E : r = skipn 3 t) by congruence.
    rewrite E. specialize (K 3%nat). lia. }
  apply parse_number_consuming in H. cbn [List.length] in H. lia.
Qed.

(** Two parsers of the inner values that agree on the texts shorter than
    [bound] give the same elements and members on such texts, whatever the
    counters, once these are at least the length of the text. *)
Hypothesis bound : nat.
Hypothesis pv_agree :
  forall s, (List.length s < bound)%nat -> pv s = pv' s.

Lemma parse_elements_agree (n m : nat) (s : jsstring) :
  (List.length s < bound)%nat ->
  (List.length s <= n)%nat -> (List.length s <= m)%nat ->
  parse_elements pv n s = parse_elements pv' m s.
Proof.
  revert m s; induction n as [|n IH]; intros m s Hb Hn Hm.
  - destruct s; [|cbn [List.length] in Hn; lia].
    destruct m as [|m]; [reflexivity|].
    cbn [parse_elements]. rewrite <- pv_agree by exact Hb.
    destruct (pv []) as [[v r]|] eqn:E; [|reflexivity].
    apply pv_consuming in E. cbn [List.length] in E. lia.
  - cbn [parse_elements].
    destruct (pv s) as [[v r]|] eqn:E.
    + assert (L := pv_consuming _ _ _ E).
      destruct m as [|m]; [lia|].
      cbn [parse_elements]. rewrite <- pv_agree, E by exact Hb.
      destruct (skip_ws r) as [|c r'] eqn:W; [reflexivity|].
      apply skip_ws_cons in W.
      destruct (c =? 44); [|reflexivity].
      rewrite (IH m r') by lia. reflexivity.
    + destruct m as [|m]; [reflexivity|].
      cbn [parse_elements]. rewrite <- pv_agree, E by exact Hb. reflexivity.
Qed.

Lemma parse_members_agree (n m : nat) (s : jsstring) :
  (List.length s < bound)%nat ->
  (List.length s <= n)%nat -> (List.length s <= m)%nat ->
  parse_members pv n s = parse_members pv' m s.
Proof.
  revert m s; induction n as [|n IH]; intros m s Hb Hn Hm.
  - destruct s; [|cbn [List.length] in Hn; lia].
    destruct m as [|m]; reflexivity.
  - destruct m as [|m].
    + destruct s; [reflexivity|cbn [List.length] in Hm; lia].
    + cbn [parse_members].
      destruct (skip_ws s) as [|q r0] eqn:W0; [reflexivity|].
      apply skip_ws_cons in W0.
      destruct (q =? 34); [|reflexivity].
      destruct (parse_string_body r0) as [[k r1]|] eqn:K; [|reflexivity].
      apply parse_string_body_consuming in K.
      destruct (skip_ws r1) as [|c r2] eqn:W1; [reflexivity|].
      apply skip_ws_cons in W1.
      destruct (c =? 58); [|reflexivity].
      rewrite <- pv_agree by lia.
      destruct (pv r2) as [[v r3]|] eqn:E; [|reflexivity].
      apply pv_consuming in E.
      destruct (skip_ws r3) as [|c' r4] eqn:W3; [reflexivity|].
      apply skip_ws_cons in W3.
      destruct (c' =? 44); [|reflexivity].
      rewrite (IH m r4) by lia. reflexivity.
Qed.

Lemma parse_value_step_agree (s : jsstring) :
  (List.length s <= bound)%nat ->
  parse_value_step pv s = parse_value_step pv' s.
Proof.
  intros Hb. unfold parse_value_step.
  destruct (skip_ws s) as [|c t] eqn:W; [reflexivity|].
  apply skip_ws_cons in W.
  destruct (c =? 34); [reflexivity|].
  destruct (c =? 91).
  { destruct (skip_ws t) as [|c' t']; [reflexivity|].
    destruct (c' =? 93); [reflexivity|].
    now rewrite (parse_elements_agree (List.length t) (List.length t) t)
      by lia. }
  destruct (c =? 123); [|reflexivity].
  destruct (skip_ws t) as [|c' t']; [reflexivity|].
  destruct (c' =? 125); [reflexivity|].
  now rewrite (parse_members_agree (List.length t) (List.length t) t) by lia.
Qed.

End FuelFacts.

Lemma parse_value_consuming (f : nat) : consuming (parse_value f).
Proof.
  induction f as [|f IH]; [intros s v r H; discriminate|].
  cbn [parse_value]. now apply parse_value_step_consuming.
Qed.

(** Any fuel above the length of the text gives the same result. *)
Lemma parse_value_fuel (f f' : nat) (s : jsstring) :
  (List.length s < f)%nat -> (List.length s < f')%nat ->
  parse_value f s = parse_value f' s.
Proof.
  revert f' s; induction f as [|f IH]; intros f' s H H'; [lia|].
  destruct f' as [|f']; [lia|].
  cbn [parse_value].
  apply (parse_value_step_agree _ _ (parse_value_consuming f) (List.length s)).
  - intros s' Hs'. apply IH; lia.
  - lia.
Qed.

(** The fuel that [JSON_parse] gives is as good as any larger one. *)
Lemma JSON_parse_fuel (text : jsstring) (fuel : nat) :
  (List.length text < fuel)%nat ->
  JSON_parse text =
  match parse_value fuel text with
  | Some (v, rest) =>
      if is_empty (skip_ws rest) then Normal v else Throw SyntaxError
  | None => Throw SyntaxError
  end.
Proof.
  intros H. unfold JSON_parse.
  now rewrite (parse_value_fuel (S (List.length text)) fuel text) by lia.
Qed.

(** ** Reading back what [JSON.stringify] wrote *)

Lemma hex_value_unit (n : N) : n < 16 -> hex_value (hex_unit n) = Some n.
Proof.
  intros H. unfold hex_unit, hex_value.
  destruct (N.ltb_spec n 10) as [L|L].
  - replace ((48 <=? 48 + n) && (48 + n <=? 57)) with true.
    + f_equal. lia.
    + symmetry. apply andb_true_iff. split; apply N.leb_le; lia.
  - replace ((48 <=? 87 + n) && (87 + n <=? 57)) with false.
    + replace ((97 <=? 87 + n) && (87 + n <=? 102)) with true.
      * f_equal. lia.
      * symmetry. apply andb_true_iff. split; apply N.leb_le; lia.
    + symmetry. apply andb_false_iff. right. apply N.leb_gt. lia.
Qed.

Lemma hex4_escape (c : codeunit) :
  c < 65536 ->
  hex4 (hex_unit (c / 4096 mod 16)) (hex_unit (c / 256 mod 16))
       (hex_unit (c / 16 mod 16)) (hex_unit (c mod 16)) = Some c.
Proof.
  intros H. unfold hex4.
  rewrite !hex_value_unit by (apply N.mod_lt; discriminate).
  f_equal.
  replace (c / 256) with (c / 16 / 16) by (now rewrite N.Div0.div_div).
  replace (c / 4096) with (c / 16 / 16 / 16) by (now rewrite !N.Div0.div_div).
  pose proof (N.div_mod c 16) as E0.
  pose proof (N.div_mod (c / 16) 16) as E1.
  pose proof (N.div_mod (c / 16 / 16) 16) as E2.
  pose proof (N.div_mod (c / 16 / 16 / 16) 16) as E3.
  pose proof (N.mod_lt c 16) as L0.
  pose proof (N.mod_lt (c / 16) 16) as L1.
  pose proof (N.mod_lt (c / 16 / 16) 16) as L2.
  assert (c / 16 / 16 / 16 / 16 = 0) as Z.
  { rewrite !N.Div0.div_div. apply N.div_small. exact H. }
  rewrite Z in E3. lia.
Qed.

Lemma parse_string_body_raw (c : codeunit) (r : jsstring) :
  c <> 34 -> c <> 92 -> 32 <= c ->
  parse_string_body (c :: r) = cons_unit c (parse_string_body r).
Proof.
  intros H1 H2 H3. cbn [parse_string_body].
  apply N.eqb_neq in H1, H2. rewrite H1, H2.
  replace (c <? 32) with false by (symmetry; apply N.ltb_ge; lia).
  reflexivity.
Qed.

Lemma parse_string_body_simple (e u : N) (r : jsstring) :
  simple_escape e = Some u ->
  parse_string_body (92 :: e :: r) = cons_unit u (parse_string_body r).
Proof.
  intros H. cbn [parse_string_body]. cbn [N.eqb Pos.eqb].
  destruct (e =? 117) eqn:E.
  - apply N.eqb_eq in E. subst e. discriminate H.
  - now rewrite H.
Qed.

Lemma parse_string_body_unicode (c : codeunit) (r : jsstring) :
  c < 65536 ->
  parse_string_body (unicode_escape c ++ r) =
  cons_unit c (parse_string_body r).
Proof.
  intros H. unfold unicode_escape. cbn [app parse_string_body].
  cbn [N.eqb Pos.eqb]. now rewrite (hex4_escape c H).
Qed.

Lemma parse_string_body_quote_unit (c : codeunit) (r : jsstring) :
  is_high c = false ->
  parse_string_body (quote_unit c ++ r) = cons_unit c (parse_string_body r).
Proof.
  intros Hh. unfold quote_unit.
  destruct (c =? 8) eqn:E8;
    [apply N.eqb_eq in E8; subst; now apply parse_string_body_simple|].
  destruct (c =? 9) eqn:E9;
    [apply N.eqb_eq in E9; subst; now apply parse_string_body_simple|].
  destruct (c =? 10) eqn:E10;
    [apply N.eqb_eq in E10; subst; now apply parse_string_body_simple|].
  destruct (c =? 12) eqn:E12;
    [apply N.eqb_eq in E12; subst; now apply parse_string_body_simple|].
  destruct (c =? 13) eqn:E13;
    [apply N.eqb_eq in E13; subst; now apply parse_string_body_simple|].
  destruct (c =? 34) eqn:E34;
    [apply N.eqb_eq in E34; subst; now apply parse_string_body_simple|].
  destruct (c =? 92) eqn:E92;
    [apply N.eqb_eq in E92; subst; now apply parse_string_body_simple|].
  destruct ((c <? 32) || is_low c) eqn:E.
  - apply parse_string_body_unicode.
    apply orb_true_iff in E as [E|E].
    + apply N.ltb_lt in E. lia.
    + unfold is_low in E. apply andb_true_iff in E as [_ E].
      apply N.leb_le in E. lia.
  - apply orb_false_iff in E as [E _]. apply N.ltb_ge in E.
    apply N.eqb_neq in E34, E92.
    now apply parse_string_body_raw.
Qed.

Lemma parse_string_body_quote_step (c : codeunit) (s r : jsstring) :
  parse_string_body (quote_units (c :: s) ++ r) =
  cons_unit c (parse_string_body (quote_units s ++ r)).
Proof.
  cbn [quote_units].
  destruct (is_high c) eqn:Hc; [|rewrite <- app_assoc;
                                  now apply parse_string_body_quote_unit].
  assert (Hc' := Hc). unfold is_high in Hc'.
  apply andb_true_iff in Hc' as [L U].
  apply N.leb_le in L, U.
  destruct s as [|d s].
  - apply parse_string_body_unicode. lia.
  - destruct (is_low d) eqn:Hd.
    + assert (Hd' := Hd). unfold is_low in Hd'.
      apply andb_true_iff in Hd' as [L' U'].
      apply N.leb_le in L', U'.
      assert (Hdh : is_high d = false).
      { unfold is_high. apply andb_false_iff. right. apply N.leb_gt. lia. }
      cbn [quote_units]. rewrite Hdh.
      rewrite <- (app_assoc (quote_unit d)).
      rewrite parse_string_body_quote_unit by exact Hdh.
      cbn [app].
      rewrite parse_string_body_raw by lia.
      rewrite parse_string_body_raw by lia.
      reflexivity.
    + rewrite <- app_assoc. apply parse_string_body_unicode. lia.
Qed.

(** A quoted string is read back as written, up to the closing quote. *)
Lemma parse_string_body_quote (s r : jsstring) :
  parse_string_body (quote_units s ++ 34 :: r) = Some (s, r).
Proof.
  induction s as [|c s IH].
  - reflexivity.
  - rewrite parse_string_body_quote_step, IH. reflexivity.
Qed.

Lemma is_digit_codes (c : codeunit) : is_digit c = true <-> 48 <= c <= 57.
Proof.
  unfold is_digit. rewrite andb_true_iff, !N.leb_le. reflexivity.
Qed.

Lemma take_digits_stop (c : codeunit) (r : jsstring) :
  is_digit c = false -> take_digits (c :: r) = (Decimal.Nil, c :: r).
Proof. intros H. cbn [take_digits]. now rewrite H. Qed.

Lemma take_digits_units (d : Decimal.uint) (c : codeunit) (r : jsstring) :
  is_digit c = false ->
  take_digits (uint_units d ++ c :: r) = (d, c :: r).
Proof.
  intros H.
  induction d; cbn [uint_units app];
    [now apply take_digits_stop| cbn [take_digits]; rewrite IHd; reflexivity ..].
Qed.

Lemma to_uint_int_part_ok (n : N) : int_part_ok (N.to_uint n) = true.
Proof.
  pose proof (DecimalN.Unsigned.to_of (N.to_uint n)) as H.
  rewrite DecimalN.Unsigned.of_to in H.
  remember (N.to_uint n) as d eqn:E. clear E n.
  unfold Decimal.unorm in H.
  destruct (Decimal.nzhead d) eqn:Hz.
  - rewrite H. reflexivity.
  - exfalso. exact (DecimalFacts.nzhead_nonzero d _ Hz).
  - rewrite H. reflexivity.
  - rewrite H. reflexivity.
  - rewrite H. reflexivity.
  - rewrite H. reflexivity.
  - rewrite H. reflexivity.
  - rewrite H. reflexivity.
  - rewrite H. reflexivity.
  - rewrite H. reflexivity.
  - rewrite H. reflexivity.
Qed.

Lemma uint_units_head (d : Decimal.uint) :
  d <> Decimal.Nil ->
  exists c t, uint_units d = c :: t /\ is_digit c = true.
Proof.
  intros H. destruct d; [congruence| eexists; eexists; split; reflexivity ..].
Qed.

Lemma int_part_ok_nonnil (d : Decimal.uint) :
  int_part_ok d = true -> d <> Decimal.Nil.
Proof. destruct d; [discriminate | discriminate ..]. Qed.

Lemma parse_number_N_units (n : N) (c : codeunit) (r : jsstring) :
  ends_number c = true ->
  parse_number (N_units n ++ c :: r) = Some (JNumber false n 0, c :: r).
Proof.
  intros H. unfold ends_number in H. apply negb_true_iff in H.
  repeat (apply orb_false_iff in H as [H ?]).
  unfold parse_number, N_units.
  destruct (uint_units_head (N.to_uint n)
              (int_part_ok_nonnil _ (to_uint_int_part_ok n)))
    as (x & t & Ex & Hx).
  assert (Hsign : parse_sign (uint_units (N.to_uint n) ++ c :: r) =
              (false, uint_units (N.to_uint n) ++ c :: r)).
  { rewrite Ex. cbn [app parse_sign].
    replace (x =? 45) with false; [reflexivity|].
    symmetry. apply N.eqb_neq. apply is_digit_codes in Hx. lia. }
  rewrite Hsign, take_digits_units by exact H.
  rewrite to_uint_int_part_ok.
  unfold parse_fraction, parse_exponent.
  rewrite H2, H1, H0. cbn [orb].
  rewrite DecimalFacts.app_nil_r, DecimalN.Unsigned.of_to.
  reflexivity.
Qed.

Lemma parse_number_Z_units (z : Z) (c : codeunit) (r : jsstring) :
  ends_number c = true ->
  parse_number (Z_units z ++ c :: r) =
  Some (JNumber (z <? 0)%Z (Z.abs_N z) 0, c :: r).
Proof.
  intros H. unfold Z_units.
  destruct (z <? 0)%Z; [|now apply parse_number_N_units].
  pose proof (parse_number_N_units (Z.abs_N z) c r H) as P.
  unfold parse_number in *. cbn [app parse_sign]. cbn [N.eqb Pos.eqb].
  unfold N_units in *.
  destruct (uint_units_head (N.to_uint (Z.abs_N z))
              (int_part_ok_nonnil _ (to_uint_int_part_ok (Z.abs_N z))))
    as (x & t & Ex & Hx).
  assert (Hsign : parse_sign (uint_units (N.to_uint (Z.abs_N z)) ++ c :: r) =
              (false, uint_units (N.to_uint (Z.abs_N z)) ++ c :: r)).
  { rewrite Ex. cbn [app parse_sign].
    replace (x =? 45) with false; [reflexivity|].
    symmetry. apply N.eqb_neq. apply is_digit_codes in Hx. lia. }
  rewrite Hsign in P.
  destruct (take_digits (uint_units (N.to_uint (Z.abs_N z)) ++ c :: r))
    as [int s2].
  destruct (int_part_ok int); [|discriminate].
  destruct (parse_fraction s2) as [[frac s3]|]; [|discriminate].
  destruct (parse_exponent s3) as [[e s4]|]; [|discriminate].
  injection P as P1 P2 P3. now rewrite P1, P2, P3.
Qed.

Lemma quote_app (s r : jsstring) :
  quote s ++ r = 34 :: quote_units s ++ 34 :: r.
Proof. unfold quote, dq. cbn [app]. now rewrite <- app_assoc. Qed.

Lemma Z_units_head (z : Z) :
  exists x t, Z_units z = x :: t /\ (x = 45 \/ is_digit x = true).
Proof.
  unfold Z_units, N_units.
  destruct (uint_units_head (N.to_uint (Z.abs_N z))
              (int_part_ok_nonnil _ (to_uint_int_part_ok (Z.abs_N z))))
    as (x & t & Ex & Hx).
  destruct (z <? 0)%Z.
  - exists 45, (uint_units (N.to_uint (Z.abs_N z))). now split; [|left].
  - exists x, t. now split; [|right].
Qed.

Section ContainerFacts.

Variable pv : jsstring -> option (JSON * jsstring).

Lemma parse_value_step_string (s r : jsstring) :
  parse_value_step pv (quote s ++ r) = Some (JString s, r).
Proof.
  rewrite quote_app. unfold parse_value_step.
  cbn [skip_ws]. change (is_json_space 34) with false. cbv iota.
  change (34 =? 34) with true. cbv iota.
  now rewrite parse_string_body_quote.
Qed.

Lemma parse_value_step_number_head (x : N) (t : jsstring) :
  x = 45 \/ is_digit x = true ->
  parse_value_step pv (x :: t) = parse_number (x :: t).
Proof.
  intros [->|H]; [reflexivity|].
  apply is_digit_codes in H.
  assert (C : x = 48 \/ x = 49 \/ x = 50 \/ x = 51 \/ x = 52 \/ x = 53 \/
              x = 54 \/ x = 55 \/ x = 56 \/ x = 57) by lia.
  repeat (destruct C as [->|C]; [reflexivity|]).
  subst x. reflexivity.
Qed.

Lemma parse_value_step_number (z : Z) (c : codeunit) (r : jsstring) :
  ends_number c = true ->
  parse_value_step pv (Z_units z ++ c :: r) =
  Some (JNumber (z <? 0)%Z (Z.abs_N z) 0, c :: r).
Proof.
  intros H.
  destruct (Z_units_head z) as (x & t & E & Hx).
  rewrite <- (parse_number_Z_units z c r H).
  rewrite E. cbn [app]. now apply parse_value_step_number_head.
Qed.

Lemma parse_members_cons (n : nat) (k vt : jsstring) (v : JSON)
  (T : jsstring) (ms : list (jsstring * JSON)) (R : jsstring) :
  pv (vt ++ 44 :: T) = Some (v, 44 :: T) ->
  parse_members pv n T = Some (ms, R) ->
  parse_members pv (S n) (quote k ++ 58 :: vt ++ 44 :: T) =
  Some ((k, v) :: ms, R).
Proof.
  intros Hv Hm. rewrite quote_app. cbn [parse_members skip_ws].
  change (is_json_space 34) with false. cbv iota.
  change (34 =? 34) with true. cbv iota.
  rewrite parse_string_body_quote. cbn [skip_ws].
  change (is_json_space 58) with false. cbv iota.
  change (58 =? 58) with true. cbv iota.
  rewrite Hv. cbn [skip_ws].
  change (is_json_space 44) with false. cbv iota.
  change (44 =? 44) with true. cbv iota.
  now rewrite Hm.
Qed.

Lemma parse_members_last (n : nat) (k vt : jsstring) (v : JSON) (R : jsstring) :
  pv (vt ++ 125 :: R) = Some (v, 125 :: R) ->
  parse_members pv (S n) (quote k ++ 58 :: vt ++ 125 :: R) =
  Some ([(k, v)], R).
Proof.
  intros Hv. rewrite quote_app. cbn [parse_members skip_ws].
  change (is_json_space 34) with false. cbv iota.
  change (34 =? 34) with true. cbv iota.
  rewrite parse_string_body_quote. cbn [skip_ws].
  change (is_json_space 58) with false. cbv iota.
  change (58 =? 58) with true. cbv iota.
  rewrite Hv. cbn [skip_ws].
  change (is_json_space 125) with false. cbv iota.
  change (125 =? 44) with false. cbv iota.
  change (125 =? 125) with true. cbv iota.
  reflexivity.
Qed.

Lemma parse_members_more (n m : nat) (s : jsstring)
  (x : list (jsstring * JSON) * jsstring) :
  (n <= m)%nat ->
  parse_members pv n s = Some x -> parse_members pv m s = Some x.
Proof.
  revert m s x; induction n as [|n IH]; intros m s x Hm H; [discriminate|].
  destruct m as [|m]; [lia|].
  cbn [parse_members] in *.
  destruct (skip_ws s) as [|q r]; [discriminate|].
  destruct (q =? 34); [|discriminate].
  destruct (parse_string_body r) as [[k r1]|]; [|discriminate].
  destruct (skip_ws r1) as [|c r2]; [discriminate|].
  destruct (c =? 58); [|discriminate].
  destruct (pv r2) as [[v r3]|]; [|discriminate].
  destruct (skip_ws r3) as [|c' r4]; [discriminate|].
  destruct (c' =? 44); [|exact H].
  destruct (parse_members pv n r4) as [[ms r5]|] eqn:E; [|discriminate].
  rewrite (IH m r4 (ms, r5) ltac:(lia) E). exact H.
Qed.

Lemma parse_elements_cons (n : nat) (et : jsstring) (v : JSON)
  (T : jsstring) (vs : list JSON) (R : jsstring) :
  pv (et ++ 44 :: T) = Some (v, 44 :: T) ->
  parse_elements pv n T = Some (vs, R) ->
  parse_elements pv (S n) (et ++ 44 :: T) = Some (v :: vs, R).
Proof.
  intros Hv He. cbn [parse_elements]. rewrite Hv. cbn [skip_ws].
  change (is_json_space 44) with false. cbv iota.
  change (44 =? 44) with true. cbv iota.
  now rewrite He.
Qed.

Lemma parse_elements_last (n : nat) (et : jsstring) (v : JSON) (R : jsstring) :
  pv (et ++ 93 :: R) = Some (v, 93 :: R) ->
  parse_elements pv (S n) (et ++ 93 :: R) = Some ([v], R).
Proof.
  intros Hv. cbn [parse_elements]. rewrite Hv. cbn [skip_ws].
  change (is_json_space 93) with false. cbv iota.
  change (93 =? 44) with false. cbv iota.
  change (93 =? 93) with true. cbv iota.
  reflexivity.
Qed.

Lemma parse_elements_more (n m : nat) (s : jsstring)
  (x : list JSON * jsstring) :
  (n <= m)%nat ->
  parse_elements pv n s = Some x -> parse_elements pv m s = Some x.
Proof.
  revert m s x; induction n as [|n IH]; intros m s x Hm H; [discriminate|].
  destruct m as [|m]; [lia|].
  cbn [parse_elements] in *.
  destruct (pv s) as [[v r]|]; [|discriminate].
  destruct (skip_ws r) as [|c r']; [discriminate|].
  destruct (c =? 44); [|exact H].
  destruct (parse_elements pv n r') as [[vs r'']|] eqn:E; [|discriminate].
  rewrite (IH m r' (vs, r'') ltac:(lia) E). exact H.
Qed.

End ContainerFacts.

Lemma stringify_record_app (r : HistoryRecord) (rest : jsstring) :
  stringify_record r ++ rest =
  123 :: quote (lit "q") ++ 58 :: quote (rec_q r) ++
  44 :: quote (lit "lang") ++ 58 :: quote (rec_lang r) ++
  44 :: quote (lit "ts") ++ 58 :: Z_units (rec_ts r) ++
  44 :: quote (lit "answer") ++ 58 :: quote (rec_answer r) ++
  125 :: rest.
Proof.
  unfold stringify_record.
  repeat (rewrite <- app_assoc; cbn [app]).
  reflexivity.
Qed.

(** A stored record is read back, by a parser with fuel for its values. *)
Lemma parse_value_record (f : nat) (r : HistoryRecord) (rest : jsstring) :
  parse_value (S (S f)) (stringify_record r ++ rest) =
  Some (json_of_record r, rest).
Proof.
  rewrite stringify_record_app.
  change (parse_value (S (S f))) with (parse_value_step (parse_value (S f))).
  set (pv := parse_value (S f)).
  assert (Hs : forall s T, pv (quote s ++ T) = Some (JString s, T)).
  { intros s T. unfold pv. cbn [parse_value].
    apply parse_value_step_string. }
  assert (Hn : forall z c T, ends_number c = true ->
                 pv (Z_units z ++ c :: T) =
                 Some (JNumber (z <? 0)%Z (Z.abs_N z) 0, c :: T)).
  { intros z c T H. unfold pv. cbn [parse_value].
    now apply parse_value_step_number. }
  unfold parse_value_step at 1. cbn [skip_ws].
  change (is_json_space 123) with false. cbv iota.
  change (123 =? 34) with false. change (123 =? 91) with false.
  change (123 =? 123) with true. cbv iota.
  set (body := quote (lit "q") ++ _).
  assert (B : skip_ws body = 34 :: tl body /\ (4 <= List.length body)%nat).
  { unfold body. rewrite quote_app. cbn [skip_ws tl List.length].
    split; [reflexivity|].
    repeat (rewrite length_app; cbn [List.length]). lia. }
  destruct B as [B L]. rewrite B.
  change (34 =? 125) with false. cbv iota.
  assert (M : parse_members pv 4 body =
              Some ([(lit "q", JString (rec_q r));
                     (lit "lang", JString (rec_lang r));
                     (lit "ts",
                      JNumber (rec_ts r <? 0)%Z (Z.abs_N (rec_ts r)) 0);
                     (lit "answer", JString (rec_answer r))], rest)).
  { unfold body.
    apply parse_members_cons; [apply Hs|].
    apply parse_members_cons; [apply Hs|].
    apply parse_members_cons; [now apply Hn|].
    apply parse_members_last. apply Hs. }
  rewrite (parse_members_more pv 4 (List.length body) body _ L M).
  reflexivity.
Qed.

Lemma stringify_record_length (r : HistoryRecord) :
  (1 <= List.length (stringify_record r))%nat.
Proof.
  rewrite <- (app_nil_r (stringify_record r)), stringify_record_app.
  cbn [List.length]. lia.
Qed.

Lemma join_comma_length (h : list HistoryRecord) :
  (List.length h <=
   List.length (join_comma (List.map stringify_record h)))%nat.
Proof.
  induction h as [|x h IH]; [simpl; lia|].
  pose proof (stringify_record_length x).
  destruct h as [|y h].
  - cbn [List.map join_comma List.length]. lia.
  - change (join_comma (List.map stringify_record (x :: y :: h)))
      with (stringify_record x ++
            44 :: join_comma (List.map stringify_record (y :: h))).
    rewrite length_app. cbn [List.length] in *. lia.
Qed.

Lemma parse_elements_records (f : nat) (h : list HistoryRecord) (R : jsstring) :
  h <> [] ->
  parse_elements (parse_value (S (S f))) (List.length h)
    (join_comma (List.map stringify_record h) ++ 93 :: R) =
  Some (List.map json_of_record h, R).
Proof.
  induction h as [|x h IH]; intros Hne; [congruence|].
  destruct h as [|y h].
  - cbn [List.map join_comma List.length].
    apply parse_elements_last, parse_value_record.
  - change (join_comma (List.map stringify_record (x :: y :: h)))
      with (stringify_record x ++
            44 :: join_comma (List.map stringify_record (y :: h))).
    rewrite <- app_assoc. cbn [app].
    change (List.length (x :: y :: h)) with (S (List.length (y :: h))).
    change (List.map json_of_record (x :: y :: h))
      with (json_of_record x :: List.map json_of_record (y :: h)).
    apply parse_elements_cons; [apply parse_value_record|].
    apply IH. discriminate.
Qed.

(** What the script stored is what the next page load reads. *)
Lemma JSON_parse_stringify (h : list HistoryRecord) :
  JSON_parse (JSON_stringify h) = Normal (json_of_history h).
Proof.
  destruct h as [|x h]; [reflexivity|].
  unfold JSON_parse, JSON_stringify, json_of_history.
  set (items := x :: h).
  set (body := join_comma (List.map stringify_record items)).
  change (lit "[" ++ body ++ lit "]") with (91 :: body ++ [93]).
  assert (L : (List.length items <= List.length (body ++ [93%N]))%nat).
  { rewrite length_app. pose proof (join_comma_length items). fold body in H.
    lia. }
  assert (F : exists f, List.length (91 :: body ++ [93]) = S (S f)).
  { cbn [List.length]. rewrite length_app. cbn [List.length].
    exists (List.length body + 0)%nat. lia. }
  destruct F as [f F]. rewrite F.
  change (parse_value (S (S (S f))))
    with (parse_value_step (parse_value (S (S f)))).
  unfold parse_value_step. cbn [skip_ws].
  change (is_json_space 91) with false. cbv iota.
  change (91 =? 34) with false. change (91 =? 91) with true. cbv iota.
  assert (B : exists t, body ++ [93] = 123 :: t).
  { unfold body, items.
    destruct h as [|y h].
    - cbn [List.map join_comma].
      rewrite stringify_record_app. eexists; reflexivity.
    - change (join_comma (List.map stringify_record (x :: y :: h)))
        with (stringify_record x ++
              44 :: join_comma (List.map stringify_record (y :: h))).
      rewrite <- app_assoc, stringify_record_app. eexists; reflexivity. }
  destruct B as [t B].
  assert (Hskip : skip_ws (body ++ [93]) = 123 :: t) by (now rewrite B).
  rewrite Hskip. change (123 =? 93) with false. cbv iota.
  unfold body in *.
  rewrite (parse_elements_more _ (List.length items) _ _ _ L
             (parse_elements_records f items [] ltac:(discriminate))).
  reflexivity.
Qed.

Lemma load_stored (h : list HistoryRecord) :
  load (Some (JSON_stringify h)) = Normal (json_of_history h).
Proof.
  unfold load.
  replace (is_empty (JSON_stringify h)) with false by reflexivity.
  apply JSON_parse_stringify.
Qed.

Lemma load_nonempty (s : jsstring) :
  is_empty s = false -> load (Some s) = JSON_parse s.
Proof. intros H. unfold load. now rewrite H. Qed.

(** C4, as amended: a missing key and the empty text load as the empty
    array, with no exception, and the text that the script stored loads as
    the stored records. *)
Theorem load_absent_or_stored (h : list HistoryRecord) :
  load None = Normal (JArray []) /\
  load (Some []) = Normal (JArray []) /\
  load (Some (JSON_stringify h)) = Normal (json_of_history h).
Proof.
  split; [reflexivity|]. split; [reflexivity|]. apply load_stored.
Qed.

(** C4, the claim as stated fails for corrupt content: a text that is not
    JSON, such as a stored array cut short, makes the load throw a
    [SyntaxError] instead of giving the empty array; no amount of fuel lets
    the parser accept it. *)
Lemma corrupt_storage_throws :
  load (Some (lit "{oops")) = Throw SyntaxError /\
  (forall fuel, parse_value fuel (lit "{oops") = None) /\
  load (Some (removelast (JSON_stringify [sample_record 1]))) =
    Throw SyntaxError /\
  load (Some (JSON_stringify [sample_record 1])) =
    Normal (json_of_history [sample_record 1]).
Proof.
  split; [vm_compute; reflexivity|].
  split; [intros [|f]; reflexivity|].
  split; vm_compute; reflexivity.
Qed.

(** * Further properties *)

(** ** Storage and history through a session *)

(** X1: after a response without [error], whatever the page held before, the
    text now stored under the history key reads back, by the load of line 25,
    as the history now held in memory. *)
Theorem stored_history_reads_back (toLocaleString : Z -> jsstring)
  (text lang : jsstring) (now : Z) (res : Response) (a : App) :
  res_error res = false ->
  in_sync (handleQuery_resume toLocaleString text lang now res a).
Proof.
  intros He.
  destruct (resume_success_effect toLocaleString text lang now res a He)
    as (Hh & Hk & _).
  cbv zeta in Hh, Hk. unfold in_sync. rewrite Hh, Hk. apply load_stored.
Qed.

Lemma stored_history_reads_back_fresh :
  res_error (ok_response text_weather) = false /\
  in_sync (handleQuery_resume apostrophe_locale (lit "rain") (lit "en") 0
             (ok_response text_weather) fresh_app).
Proof.
  split; [reflexivity|].
  apply (stored_history_reads_back apostrophe_locale (lit "rain") (lit "en")
           0%Z (ok_response text_weather) fresh_app).
  reflexivity.
Defined.

Lemma resume_error_effect (toLocaleString : Z -> jsstring)
  (text lang : jsstring) (now : Z) (res : Response) (a : App) :
  res_error res = true ->
  context (handleQuery_resume toLocaleString text lang now res a) = context a /\
  kr_history (handleQuery_resume toLocaleString text lang now res a) =
    kr_history a /\
  queryText_value (ui (handleQuery_resume toLocaleString text lang now res a)) =
    queryText_value (ui a).
Proof.
  intros He. unfold handleQuery_resume. rewrite He.
  repeat apply conj; reflexivity.
Qed.

Lemma fire_keeps (k : nat) (a : App) :
  context (fire k a) = context a /\ kr_history (fire k a) = kr_history a /\
  queryText_value (ui (fire k a)) = queryText_value (ui a) /\
  langSelect_value (ui (fire k a)) = langSelect_value (ui a).
Proof.
  unfold fire. destruct (nth_error (timers a) k) as [t|];
    [|repeat apply conj; reflexivity].
  destruct (typing_tick t) as [m t']. repeat apply conj; reflexivity.
Qed.

Lemma handleQuery_begin_keeps (a : App) :
  match handleQuery_begin a with
  | Blocked a' | Pending _ a' =>
      context a' = context a /\ kr_history a' = kr_history a /\
      queryText_value (ui a') = queryText_value (ui a) /\
      langSelect_value (ui a') = langSelect_value (ui a)
  end.
Proof.
  unfold handleQuery_begin.
  destruct (is_empty _ && negb _); repeat apply conj; reflexivity.
Qed.

(** What an event may do to the history and the stored text: nothing, or one
    record pushed and the array stored. *)
Lemma handle_store (toLowerCase : jsstring -> jsstring)
  (toLocaleString : Z -> jsstring) (e : Event) (p : Page) :
  let a := page_app p in
  let a' := page_app (handle toLowerCase toLocaleString e p) in
  (history (context a') = history (context a) /\
   kr_history a' = kr_history a) \/
  (exists rec,
     history (context a') = pushed (history (context a)) rec /\
     kr_history a' = Some (JSON_stringify (pushed (history (context a)) rec))).
Proof.
  cbv zeta. destruct e; cbn [handle].
  - pose proof (handleQuery_begin_keeps (page_app p)) as H.
    destruct (handleQuery_begin (page_app p)); left;
      cbn [page_app with_app]; destruct H as (H1 & H2 & _);
      now rewrite H1, H2.
  - destruct (nth_error (pending p) k) as [req|]; [|left; split; reflexivity].
    cbn [page_app].
    destruct (fetch toLowerCase req) as [d res|]; [|left; split; reflexivity].
    destruct (res_error res) eqn:He.
    + left.
      destruct (resume_error_effect toLocaleString (req_query req)
                  (req_lang req) now res (page_app p) He) as (H1 & H2 & _).
      now rewrite H1, H2.
    + right.
      destruct (resume_success_effect toLocaleString (req_query req)
                  (req_lang req) now res (page_app p) He) as (Hh & Hk & _).
      eexists. split; [exact Hh | exact Hk].
  - left; split; reflexivity.
  - left; split; reflexivity.
  - destruct file; left; split; reflexivity.
  - left; split; reflexivity.
  - left; split; reflexivity.
  - left. cbn [with_app page_app].
    destruct (fire_keeps k (page_app p)) as (H1 & H2 & _).
    now rewrite H1, H2.
  - left; split; reflexivity.
  - left; split; reflexivity.
  - destruct (escalate (page_app p)); left; split; reflexivity.
Qed.

Lemma pushed_length (h : list HistoryRecord) (rec : HistoryRecord) :
  (List.length h <= 10)%nat -> (List.length (pushed h rec) <= 10)%nat.
Proof.
  intros H. rewrite pushed_last_n by exact H. rewrite last_n_length. lia.
Qed.

(** X2: through any sequence of events of a session (clicks, settling
    promises, typing, uploads, location, dictation, timers, the other
    buttons), a page whose stored text reads back as its history and whose
    history has at most ten records stays so. *)
Theorem session_keeps_history_stored (toLowerCase : jsstring -> jsstring)
  (toLocaleString : Z -> jsstring) (es : list Event) (p : Page) :
  in_sync (page_app p) ->
  (List.length (history (context (page_app p))) <= 10)%nat ->
  in_sync (page_app (run toLowerCase toLocaleString es p)) /\
  (List.length
     (history (context (page_app (run toLowerCase toLocaleString es p))))
   <= 10)%nat.
Proof.
  revert p; induction es as [|e es IH]; intros p Hs Hl; [now split|].
  change (run toLowerCase toLocaleString (e :: es) p)
    with (run toLowerCase toLocaleString es
            (handle toLowerCase toLocaleString e p)).
  destruct (handle_store toLowerCase toLocaleString e p)
    as [(Hh & Hk)|(rec & Hh & Hk)]; apply IH.
  - unfold in_sync in *. now rewrite Hh, Hk.
  - now rewrite Hh.
  - unfold in_sync. rewrite Hh, Hk. apply load_stored.
  - rewrite Hh. now apply pushed_length.
Qed.

Lemma pushed_skipn (h : list HistoryRecord) (rec : HistoryRecord) :
  exists j, (j <= 1)%nat /\ pushed h rec = skipn j (h ++ [rec]).
Proof.
  unfold pushed. destruct (10 <? List.length (h ++ [rec]))%nat.
  - exists 1%nat. split; [lia|]. destruct (h ++ [rec]); reflexivity.
  - exists 0%nat. split; [lia|reflexivity].
Qed.

(** X3: whatever the starting history, after successful submissions the
    history is the old records followed by the new ones with some records
    removed from the front, at most one per submission: records are never
    changed or reordered. *)
Theorem history_is_a_window (toLocaleString : Z -> jsstring)
  (fs : list Fulfilled) (a : App) :
  Forall (fun f => res_error (f_res f) = false) fs ->
  exists k,
    (k <= List.length fs)%nat /\
    history (context (resume_all toLocaleString fs a)) =
      skipn k (history (context a) ++ List.map record_of fs).
Proof.
  intros Hok. revert a.
  induction Hok as [|f fs Hf Hok IH]; intros a.
  - exists 0%nat. split; [reflexivity|]. simpl. now rewrite app_nil_r.
  - change (resume_all toLocaleString (f :: fs) a)
      with (resume_all toLocaleString fs
              (handleQuery_resume toLocaleString (f_text f) (f_lang f)
                 (f_now f) (f_res f) a)).
    destruct (IH (handleQuery_resume toLocaleString (f_text f) (f_lang f)
                    (f_now f) (f_res f) a)) as (k & Hk & E).
    destruct (resume_success_effect toLocaleString (f_text f) (f_lang f)
                (f_now f) (f_res f) a Hf) as (Hh & _).
    cbv zeta in Hh. rewrite Hh in E.
    change {| rec_q := f_text f; rec_lang := f_lang f; rec_ts := f_now f;
              rec_answer := res_answer (f_res f) |} with (record_of f) in E.
    destruct (pushed_skipn (history (context a)) (record_of f))
      as (j & Hj & P).
    rewrite P in E.
    exists (k + j)%nat. split; [cbn [List.length]; lia|].
    rewrite E.
    change (List.map record_of (f :: fs))
      with ([record_of f] ++ List.map record_of fs).
    rewrite (app_assoc (history (context a))).
    set (X := history (context a) ++ [record_of f]).
    assert (LX : (j <= List.length X)%nat).
    { unfold X. rewrite length_app. cbn [List.length]. lia. }
    rewrite <- skipn_skipn.
    f_equal. rewrite skipn_app.
    replace (j - List.length X)%nat with 0%nat by lia. reflexivity.
Qed.

Lemma history_is_a_window_overfull :
  Forall (fun f => res_error (f_res f) = false) eleven_fulfilled /\
  exists k,
    (k <= 11)%nat /\
    history (context (resume_all apostrophe_locale eleven_fulfilled
                        overfull_app)) =
      skipn k (eleven_records ++ List.map record_of eleven_fulfilled).
Proof.
  assert (H : Forall (fun f => res_error (f_res f) = false) eleven_fulfilled)
    by (repeat constructor).
  split; [exact H|].
  exact (history_is_a_window apostrophe_locale eleven_fulfilled overfull_app H).
Defined.

(** ** An accepted submission *)

Lemma fetch_ignores_image (toLowerCase : jsstring -> jsstring)
  (req : Request) (img : option File) :
  fetch toLowerCase req =
  fetch toLowerCase {| req_query := req_query req; req_lang := req_lang req;
                       req_image := img; req_ctx := req_ctx req |}.
Proof. reflexivity. Qed.

Lemma leaf_rule_no_image (q : jsstring) :
  leaf_rule q false =
  includes q (lit "pesticide") || includes q (lit "leaf spot").
Proof. unfold leaf_rule. now rewrite orb_false_r. Qed.

Lemma fetch_answer (toLowerCase : jsstring -> jsstring) (a : App)
  (img : option File) :
  fetch toLowerCase
    {| req_query := trim (queryText_value (ui a));
       req_lang := langSelect_value (ui a);
       req_image := img;
       req_ctx := {| ctx_location := location (context a);
                     ctx_lastImage := None |} |} =
  resolves_after 1200
    (ok_response (answer_for toLowerCase (trim (queryText_value (ui a)))
                    (location (context a)))).
Proof.
  unfold fetch, getAIResponse. cbn [req_query req_lang req_ctx req_image].
  destruct (mockAIResponse_val toLowerCase
              (val (trim (queryText_value (ui a))))
              (langSelect_value (ui a))
              {| ctx_location := location (context a);
                 ctx_lastImage := None |}) as (text & Ht & Hr).
  rewrite Hr. rewrite mock_text_val in Ht.
  cbn [ctx_lastImage ctx_location isSome negb or_empty] in *.
  rewrite andb_true_r in Ht. injection Ht as <-.
  reflexivity.
Qed.

Lemma renderHistory_ui (toLocaleString : Z -> jsstring) (a : App) :
  let u := ui a in
  let u' := ui (renderHistory toLocaleString a) in
  sendBtn_disabled u' = sendBtn_disabled u /\
  sendBtn_textContent u' = sendBtn_textContent u /\
  loader_hidden u' = loader_hidden u /\
  responseActions_hidden u' = responseActions_hidden u /\
  responseArea_hidden u' = responseArea_hidden u /\
  queryText_value u' = queryText_value u /\
  langSelect_value u' = langSelect_value u.
Proof.
  unfold renderHistory.
  destruct (List.length (history (context a)) =? 0)%nat;
    repeat apply conj; reflexivity.
Qed.

Lemma resume_success_ui (toLocaleString : Z -> jsstring)
  (text lang : jsstring) (now : Z) (res : Response) (a : App) :
  res_error res = false ->
  let u' := ui (handleQuery_resume toLocaleString text lang now res a) in
  sendBtn_disabled u' = false /\
  sendBtn_textContent u' = lit "Ask Now" /\
  loader_hidden u' = true /\
  responseActions_hidden u' = false /\
  responseArea_hidden u' = responseArea_hidden (ui a) /\
  queryText_value u' = queryText_value (ui a) /\
  langSelect_value u' = langSelect_value (ui a) /\
  alerts (handleQuery_resume toLocaleString text lang now res a) = alerts a /\
  requests (handleQuery_resume toLocaleString text lang now res a) =
    requests a.
Proof.
  intros He. unfold handleQuery_resume. rewrite He. cbv zeta.
  unfold save_to_history.
  match goal with
  | |- context [renderHistory _ ?b] =>
      destruct (renderHistory_ui toLocaleString b)
        as (H1 & H2 & H3 & H4 & H5 & H6 & H7);
      destruct (renderHistory_keeps toLocaleString b)
        as (_ & _ & _ & H8 & H9 & _)
  end.
  cbv zeta in *. rewrite H1, H2, H3, H4, H5, H6, H7, H8, H9.
  repeat apply conj; reflexivity.
Qed.

Lemma handleQuery_accepted (toLowerCase : jsstring -> jsstring)
  (toLocaleString : Z -> jsstring) (now : Z) (a : App) :
  is_empty (trim (queryText_value (ui a))) &&
    negb (isSome (lastImage (context a))) = false ->
  let a' := handleQuery toLowerCase toLocaleString now a in
  let answer := answer_for toLowerCase (trim (queryText_value (ui a)))
                  (location (context a)) in
  let rec := {| rec_q := trim (queryText_value (ui a));
                rec_lang := langSelect_value (ui a);
                rec_ts := now; rec_answer := answer |} in
  requests a' =
    requests a ++
    [{| req_query := trim (queryText_value (ui a));
        req_lang := langSelect_value (ui a);
        req_image := lastImage (context a);
        req_ctx := {| ctx_location := location (context a);
                      ctx_lastImage := None |} |}] /\
  history (context a') = pushed (history (context a)) rec /\
  kr_history a' = Some (JSON_stringify (pushed (history (context a)) rec)) /\
  timers a' = timers a ++ [{| typing_text := answer; typing_i := 0 |}] /\
  responseMeta_textContent (ui a') = MetaAnswer (Some (85 # 100)) /\
  sendBtn_disabled (ui a') = false /\
  loader_hidden (ui a') = true /\
  responseActions_hidden (ui a') = false /\
  responseArea_hidden (ui a') = false /\
  alerts a' = alerts a.
Proof.
  intros H. cbv zeta. unfold handleQuery, handleQuery_begin. rewrite H.
  cbv zeta. rewrite fetch_answer. cbn [req_query req_lang].
  set (res := ok_response _).
  set (b := log_request _ _).
  destruct (resume_success_effect toLocaleString
              (trim (queryText_value (ui a))) (langSelect_value (ui a))
              now res b eq_refl) as (Hh & Hk & Ht).
  destruct (resume_success_ui toLocaleString
              (trim (queryText_value (ui a))) (langSelect_value (ui a))
              now res b eq_refl) as (U1 & _ & U3 & U4 & U5 & _ & _ & U8 & U9).
  cbv zeta in *.
  rewrite Hh, Hk, Ht, U1, U3, U4, U5, U8, U9.
  repeat apply conj; try reflexivity.
  unfold handleQuery_resume. cbn [res_error res ok_response]. cbv zeta.
  unfold save_to_history.
  match goal with
  | |- context [renderHistory _ ?c] =>
      destruct (renderHistory_keeps toLocaleString c)
        as (_ & _ & _ & _ & _ & _ & M)
  end.
  cbv zeta in M. rewrite M. reflexivity.
Qed.

(** X4: a submission that passes validation, run against the mocked fetcher,
    makes exactly one request (whose [ctx] has no image), saves exactly one
    record made of the trimmed query, the language, the time and the answer,
    stores the array, starts the typewriter on the answer and leaves the send
    button enabled, the loader hidden and the actions shown; the mocked
    fetcher never takes the error branch. *)
Theorem accepted_submission_recorded (toLowerCase : jsstring -> jsstring)
  (toLocaleString : Z -> jsstring) (now : Z) (a : App) :
  is_empty (trim (queryText_value (ui a))) &&
    negb (isSome (lastImage (context a))) = false ->
  let a' := handleQuery toLowerCase toLocaleString now a in
  let answer := answer_for toLowerCase (trim (queryText_value (ui a)))
                  (location (context a)) in
  let rec := {| rec_q := trim (queryText_value (ui a));
                rec_lang := langSelect_value (ui a);
                rec_ts := now; rec_answer := answer |} in
  requests a' =
    requests a ++
    [{| req_query := trim (queryText_value (ui a));
        req_lang := langSelect_value (ui a);
        req_image := lastImage (context a);
        req_ctx := {| ctx_location := location (context a);
                      ctx_lastImage := None |} |}] /\
  history (context a') = pushed (history (context a)) rec /\
  kr_history a' = Some (JSON_stringify (pushed (history (context a)) rec)) /\
  timers a' = timers a ++ [{| typing_text := answer; typing_i := 0 |}] /\
  responseMeta_textContent (ui a') = MetaAnswer (Some (85 # 100)) /\
  sendBtn_disabled (ui a') = false /\
  loader_hidden (ui a') = true /\
  responseActions_hidden (ui a') = false /\
  responseArea_hidden (ui a') = false /\
  alerts a' = alerts a.
Proof. apply handleQuery_accepted. Qed.

Lemma accepted_submission_rain :
  is_empty (trim (queryText_value (ui rain_app))) &&
    negb (isSome (lastImage (context rain_app))) = false /\
  history (context (handleQuery ascii_toLowerCase apostrophe_locale 7 rain_app)) =
    [{| rec_q := lit "Rain tomorrow"; rec_lang := lit "en"; rec_ts := 7;
        rec_answer := text_weather |}] /\
  sendBtn_disabled
    (ui (handleQuery ascii_toLowerCase apostrophe_locale 7 rain_app)) = false.
Proof.
  assert (H : is_empty (trim (queryText_value (ui rain_app))) &&
              negb (isSome (lastImage (context rain_app))) = false)
    by reflexivity.
  destruct (accepted_submission_recorded ascii_toLowerCase apostrophe_locale
              7%Z rain_app H) as (_ & Hh & _ & _ & _ & Hb & _).
  split; [exact H|]. split; [rewrite Hh; reflexivity | exact Hb].
Defined.

(** X5: for a query that is not blank, choosing a photo changes neither the
    record that [handleQuery] saves nor the text given to the typewriter: the
    answer is the one the rules give without an image. *)
Theorem photo_changes_no_answer (toLowerCase : jsstring -> jsstring)
  (toLocaleString : Z -> jsstring) (now : Z) (a : App) (f : File) :
  is_empty (trim (queryText_value (ui a))) = false ->
  history (context (handleQuery toLowerCase toLocaleString now
                      (set_lastImage f a))) =
    history (context (handleQuery toLowerCase toLocaleString now a)) /\
  timers (handleQuery toLowerCase toLocaleString now (set_lastImage f a)) =
    timers (handleQuery toLowerCase toLocaleString now a) /\
  exists older,
    history (context (handleQuery toLowerCase toLocaleString now
                        (set_lastImage f a))) =
    older ++
    [{| rec_q := trim (queryText_value (ui a));
        rec_lang := langSelect_value (ui a);
        rec_ts := now;
        rec_answer := answer_for toLowerCase (trim (queryText_value (ui a)))
                        (location (context a)) |}].
Proof.
  intros H.
  assert (H1 : is_empty (trim (queryText_value (ui a))) &&
               negb (isSome (lastImage (context a))) = false)
    by (now rewrite H).
  assert (H2 : is_empty (trim (queryText_value (ui (set_lastImage f a)))) &&
               negb (isSome (lastImage (context (set_lastImage f a)))) = false)
    by (cbn; now rewrite andb_false_r).
  destruct (handleQuery_accepted toLowerCase toLocaleString now a H1)
    as (_ & Hh & _ & Ht & _).
  destruct (handleQuery_accepted toLowerCase toLocaleString now
              (set_lastImage f a) H2) as (_ & Hh' & _ & Ht' & _).
  cbv zeta in *. rewrite Hh, Hh', Ht, Ht'.
  split; [reflexivity|]. split; [reflexivity|].
  cbn [set_lastImage set_context context ui history location].
  destruct (pushed_skipn (history (context a))
              {| rec_q := trim (queryText_value (ui a));
                 rec_lang := langSelect_value (ui a);
                 rec_ts := now;
                 rec_answer := answer_for toLowerCase
                                 (trim (queryText_value (ui a)))
                                 (location (context a)) |}) as (j & Hj & P).
  rewrite P. exists (skipn j (history (context a))).
  rewrite skipn_app.
  assert (j = 0 \/ j = 1)%nat as [->| ->] by lia; [reflexivity|].
  destruct (history (context a)) as [|x h] eqn:E.
  - (* an empty history is never trimmed *)
    exfalso. unfold pushed in P. cbn in P. discriminate P.
  - cbn [List.length Nat.sub skipn]. reflexivity.
Qed.

Lemma photo_changes_no_answer_leaf :
  is_empty (trim (lit "my leaf is yellow")) = false /\
  history (context (handleQuery ascii_toLowerCase apostrophe_locale 7
                      leaf_photo_app)) =
    [{| rec_q := lit "my leaf is yellow"; rec_lang := lit "en"; rec_ts := 7;
        rec_answer := text_fallback |}].
Proof.
  split; [reflexivity|].
  destruct (photo_changes_no_answer ascii_toLowerCase apostrophe_locale 7%Z
              (set_queryText (lit "my leaf is yellow") fresh_app)
              (mkFile (lit "leaf.jpg")) eq_refl) as (H & _).
  unfold leaf_photo_app. rewrite H. reflexivity.
Defined.

(** ** The fetcher's failure path *)

(** X6: [getAIResponse] resolves with the apology and [error = true] exactly
    when [ctx] is [null] or [undefined] and the lower-cased query contains
    neither the word pesticide nor the words leaf spot (the only case in
    which [mockAIResponse] reads a property of [ctx] and throws); otherwise
    it resolves with an answer of confidence 0.85. *)
Theorem apology_only_without_ctx (toLowerCase : jsstring -> jsstring)
  (query : nullable jsstring) (lang : jsstring) (imageFile : option File)
  (ctx : nullable QueryCtx) :
  let q := toLowerCase (or_empty query) in
  exists d r,
    getAIResponse toLowerCase query lang imageFile ctx = resolves_after d r /\
    res_error r =
      match ctx with
      | val _ => false
      | _ => negb (includes q (lit "pesticide") || includes q (lit "leaf spot"))
      end /\
    (if res_error r then r = error_response
     else res_confidence r = Some (85 # 100)).
Proof.
  cbv zeta. unfold getAIResponse.
  destruct ctx as [| |c].
  1,2: unfold mockAIResponse, mock_text;
       destruct (includes (toLowerCase (or_empty query)) (lit "pesticide") ||
                 includes (toLowerCase (or_empty query)) (lit "leaf spot"))
         eqn:E;
       [ assert (Hq : is_empty (toLowerCase (or_empty query)) = false)
           by (destruct (toLowerCase (or_empty query));
               [rewrite !includes_nil_l in E; discriminate | reflexivity]);
         rewrite Hq; cbn; do 2 eexists; repeat apply conj; reflexivity
       | destruct (is_empty (toLowerCase (or_empty query))); cbn;
         exists 0, error_response; repeat apply conj; reflexivity ].
  destruct (mockAIResponse_val toLowerCase query lang c) as (text & _ & ->).
  do 2 eexists. repeat apply conj; reflexivity.
Qed.

(** ** Escaping loses nothing *)

Ltac case_unit c k :=
  let E := fresh "E" in
  destruct (c =? k) eqn:E; [apply N.eqb_eq in E; subst c|].

Ltac split_unit c :=
  unfold escape_unit;
  case_unit c 38; [|case_unit c 60; [|case_unit c 62; [|case_unit c 34;
                                                       [|case_unit c 39]]]].

Lemma escape_unit_prefix_free (c d : codeunit) (x y : jsstring) :
  escape_unit c ++ x = escape_unit d ++ y -> c = d /\ x = y.
Proof.
  split_unit c; split_unit d; cbn [app lit List.map list_ascii_of_string
                                   N_of_ascii N_of_digits N.add N.mul
                                   Pos.add Pos.mul Pos.succ];
    intros H;
    try (vm_compute in H; discriminate H);
    try (injection H as H; now split);
    try (injection H as H0 H; subst; vm_compute in *; discriminate).
Qed.

(** X7: [escapeHtml] loses nothing: two strings with the same escaped text are
    the same string. *)
Theorem escapeHtml_injective (s t : jsstring) :
  escapeHtml (val s) = escapeHtml (val t) -> s = t.
Proof.
  unfold escapeHtml; cbn [or_empty].
  revert t; induction s as [|c s IH]; intros [|d t] H.
  - reflexivity.
  - exfalso. cbn [flat_map] in H.
    destruct (escape_unit d) eqn:E; [|discriminate H].
    now destruct (proj2 (proj2 (escape_unit_safe d []))).
  - exfalso. cbn [flat_map] in H.
    destruct (escape_unit c) eqn:E; [|discriminate H].
    now destruct (proj2 (proj2 (escape_unit_safe c []))).
  - cbn [flat_map] in H.
    apply escape_unit_prefix_free in H as [-> H].
    f_equal. now apply IH.
Qed.

Lemma escape_unit_head (c : codeunit) :
  is_escaped c = true -> exists r, escape_unit c = 38 :: r /\ r <> [].
Proof.
  unfold is_escaped, is_markup_unit. intros H.
  split_unit c; try (eexists; split; [reflexivity|discriminate]).
  cbn in H. discriminate H.
Qed.

Lemma escapeHtml_length (s : jsstring) :
  (List.length s <= List.length (escapeHtml (val s)))%nat.
Proof.
  unfold escapeHtml; cbn [or_empty].
  induction s as [|c s IH]; [reflexivity|].
  cbn [flat_map]. rewrite length_app. cbn [List.length].
  destruct (escape_unit c) eqn:E;
    [now destruct (proj2 (proj2 (escape_unit_safe c [])))|].
  cbn [List.length]. lia.
Qed.

(** X8: [escapeHtml] returns its argument unchanged exactly when the argument
    holds none of the five units [&], [<], [>], double quote and single
    quote. *)
Theorem escapeHtml_fixed_points (s : jsstring) :
  escapeHtml (val s) = s <-> forallb (fun c => negb (is_escaped c)) s = true.
Proof.
  split.
  - induction s as [|c s IH]; intros H; [reflexivity|].
    unfold escapeHtml in *; cbn [or_empty flat_map forallb] in *.
    destruct (is_escaped c) eqn:E.
    + exfalso. destruct (escape_unit_head c E) as (r & Er & Hr).
      rewrite Er in H. cbn [app] in H. injection H as Hc H.
      pose proof (escapeHtml_length s) as L.
      unfold escapeHtml in L; cbn [or_empty] in L.
      apply (f_equal (@List.length N)) in H. rewrite length_app in H.
      destruct r; [congruence|]. cbn [List.length] in H. lia.
    + rewrite (escape_unit_plain c E) in H. cbn [app] in H.
      injection H as H. cbn [negb andb]. now apply IH.
  - induction s as [|c s IH]; intros H; [reflexivity|].
    cbn [forallb] in H. apply andb_true_iff in H as [Hc Hs].
    apply negb_true_iff in Hc.
    unfold escapeHtml in *; cbn [or_empty flat_map] in *.
    rewrite (escape_unit_plain c Hc), (IH Hs). reflexivity.
Qed.

(** ** The list after a submission *)

Lemma pushed_last (h : list HistoryRecord) (rec : HistoryRecord) :
  exists older, pushed h rec = older ++ [rec].
Proof.
  unfold pushed. destruct h as [|x h]; [exists []; reflexivity|].
  destruct (10 <? List.length ((x :: h) ++ [rec]))%nat.
  - exists h. reflexivity.
  - now exists (x :: h).
Qed.

Lemma renderHistory_children (toLocaleString : Z -> jsstring) (a : App) :
  historyList (ui (renderHistory toLocaleString a)) =
  match history (context a) with
  | [] => [Markup no_recent_queries]
  | _ :: _ => List.map (render_item toLocaleString) (rev (history (context a)))
  end.
Proof.
  unfold renderHistory.
  destruct (history (context a)) as [|r h]; [reflexivity|].
  cbn [List.length Nat.eqb set_historyList set_ui ui historyList].
  now rewrite fold_left_append.
Qed.

(** X9: after a response without [error] the list is redrawn from the history:
    it has one child for each record held, newest first, and its first child
    is the item of the query just answered. *)
Theorem newest_item_first (toLocaleString : Z -> jsstring)
  (text lang : jsstring) (now : Z) (res : Response) (a : App) :
  res_error res = false ->
  let a' := handleQuery_resume toLocaleString text lang now res a in
  historyList (ui a') =
    List.map (render_item toLocaleString) (rev (history (context a'))) /\
  hd_error (historyList (ui a')) =
    Some (render_item toLocaleString
            {| rec_q := text; rec_lang := lang; rec_ts := now;
               rec_answer := res_answer res |}) /\
  List.length (historyList (ui a')) = List.length (history (context a')).
Proof.
  intros He. cbv zeta.
  destruct (resume_success_effect toLocaleString text lang now res a He)
    as (Hh & _).
  cbv zeta in Hh.
  set (rec := {| rec_q := text; rec_lang := lang; rec_ts := now;
                 rec_answer := res_answer res |}) in *.
  assert (L : historyList
                (ui (handleQuery_resume toLocaleString text lang now res a)) =
              List.map (render_item toLocaleString)
                (rev (pushed (history (context a)) rec))).
  { unfold handleQuery_resume. rewrite He. cbv zeta. unfold save_to_history.
    rewrite renderHistory_children.
    cbn [setItem set_history context history].
    change (if (10 <? List.length (push _ _))%nat then _ else _)
      with (pushed (history (context (show_responseActions
              (typewriterEffect (res_answer res)
                 (set_responseMeta (MetaAnswer (res_confidence res))
                    (hide_loading a)))))) rec).
    cbn [show_responseActions typewriterEffect set_responseMeta hide_loading
         set_ui context history].
    destruct (pushed_last (history (context a)) rec) as (older & ->).
    destruct (older ++ [rec]) eqn:E; [destruct older; discriminate|].
    reflexivity. }
  rewrite L, Hh.
  split; [reflexivity|].
  destruct (pushed_last (history (context a)) rec) as (older & ->).
  rewrite rev_app_distr. cbn [rev app List.map hd_error].
  split; [reflexivity|].
  cbn [List.length]. rewrite length_map, length_rev, length_app.
  cbn [List.length]. lia.
Qed.

(** ** Two reveals at once *)






(** ** The escalation link *)

Lemma hex_upper_unreserved (n : N) :
  is_unreserved (hex_upper (n mod 16)) = true.
Proof.
  pose proof (N.mod_lt n 16 ltac:(discriminate)) as L.
  remember (n mod 16) as m eqn:E. clear E n.
  assert (C : m = 0 \/ m = 1 \/ m = 2 \/ m = 3 \/ m = 4 \/ m = 5 \/ m = 6 \/
              m = 7 \/ m = 8 \/ m = 9 \/ m = 10 \/ m = 11 \/ m = 12 \/
              m = 13 \/ m = 14 \/ m = 15) by lia.
  repeat (destruct C as [->|C]; [reflexivity|]).
  subst m. reflexivity.
Qed.

Lemma percent_safe (b : N) : forallb uri_safe (percent b) = true.
Proof.
  unfold percent, uri_safe. cbn [forallb].
  rewrite !hex_upper_unreserved. reflexivity.
Qed.

Lemma percent_octets_safe (l : list N) :
  forallb uri_safe (flat_map percent l) = true.
Proof.
  induction l as [|b l IH]; [reflexivity|].
  cbn [flat_map]. now rewrite forallb_app, percent_safe, IH.
Qed.

Lemma prepend_Some (x : jsstring) (r : option jsstring) (out : jsstring) :
  prepend x r = Some out -> exists y, r = Some y /\ out = x ++ y.
Proof.
  destruct r as [y|]; [|discriminate]. intros [= <-]. now exists y.
Qed.

Lemma encodeURIComponent_safe (s out : jsstring) :
  encodeURIComponent s = Some out -> forallb uri_safe out = true.
Proof.
  assert (G : forall n s out, (List.length s <= n)%nat ->
                encodeURIComponent s = Some out ->
                forallb uri_safe out = true).
  { clear s out. induction n as [|n IH]; intros s out Hn H.
    - destruct s; [injection H as <-; reflexivity|cbn in Hn; lia].
    - destruct s as [|c r]; [injection H as <-; reflexivity|].
      cbn [List.length] in Hn. cbn [encodeURIComponent] in H.
      destruct (is_unreserved c) eqn:U.
      + apply prepend_Some in H as (y & Hy & ->).
        cbn [app forallb]. unfold uri_safe at 1. rewrite U. cbn [orb andb].
        apply (IH r); [lia | exact Hy].
      + destruct (is_low c); [discriminate|].
        destruct (is_high c).
        * destruct r as [|d r']; [discriminate|].
          destruct (is_low d); [|discriminate].
          apply prepend_Some in H as (y & Hy & ->).
          rewrite forallb_app, percent_octets_safe.
          cbn [List.length] in Hn. apply (IH r'); [lia | exact Hy].
        * apply prepend_Some in H as (y & Hy & ->).
          rewrite forallb_app, percent_octets_safe.
          apply (IH r); [lia | exact Hy]. }
  now apply (G (List.length s)).
Qed.

(** X11: when the escalation handler assigns an address, it is the fixed
    [mailto:] prefix with the encoded subject, then [&body=] and the encoded
    body, and the encoded body holds only unreserved characters and percent
    escapes: no [&], [?], [#], space or line break by which the query or the
    answer could add a field to the link. *)
Theorem escalation_link_is_well_formed (a : App) (target : jsstring) :
  escalate a = Some target ->
  exists body,
    encodeURIComponent (escalation_body a) = Some body /\
    target =
      lit "mailto:agri-officer@example.com?subject=Krishimitra%20Query%20Escalation&body="
      ++ body /\
    forallb uri_safe body = true /\
    ~ In 38 body /\ ~ In 63 body /\ ~ In 35 body /\ ~ In 32 body /\
    ~ In 10 body /\ ~ In 13 body.
Proof.
  unfold escalate.
  change (encodeURIComponent (lit "Krishimitra Query Escalation"))
    with (Some (lit "Krishimitra%20Query%20Escalation")).
  destruct (encodeURIComponent (escalation_body a)) as [body|] eqn:E;
    [|discriminate].
  intros [= <-]. exists body.
  pose proof (encodeURIComponent_safe _ _ E) as S.
  split; [reflexivity|]. split; [reflexivity|]. split; [exact S|].
  rewrite forallb_forall in S.
  repeat apply conj; intros Hin; apply S in Hin; discriminate Hin.
Qed.

Lemma escalation_link_fresh :
  escalate fresh_app =
    Some (lit "mailto:agri-officer@example.com?subject=Krishimitra%20Query%20Escalation&body=Farmer%20Query%3A%0A%20%20%0A%0ALast%20AI%20Answer%3A%0A(none)") /\
  exists body,
    encodeURIComponent (escalation_body fresh_app) = Some body /\
    ~ In 38 body.
Proof.
  split; [reflexivity|].
  destruct (escalation_link_is_well_formed fresh_app _ eq_refl)
    as (body & E & _ & _ & H & _).
  exists body. split; [exact E | exact H].
Defined.

Lemma last_record_pushed (a a' : App) (rec : HistoryRecord) :
  history (context a') = pushed (history (context a)) rec ->
  last_record a' = Some rec.
Proof.
  intros H. unfold last_record. rewrite H.
  destruct (pushed_last (history (context a)) rec) as (older & ->).
  now rewrite rev_app_distr.
Qed.

(** X12: the escalation mail carries the last saved exchange: after a response
    without [error] its body is the query and the answer just saved, after a
    response with [error] it is what it was before, and while a record is
    held the text in the query field does not enter it. *)
Theorem escalation_mails_last_saved_exchange (toLocaleString : Z -> jsstring)
  (text lang : jsstring) (now : Z) (res : Response) (a : App) :
  escalation_body (handleQuery_resume toLocaleString text lang now res a) =
    (if res_error res then escalation_body a
     else lit "Farmer Query:" ++ [10] ++ text ++ [10; 10] ++
          lit "Last AI Answer:" ++ [10] ++ res_answer res) /\
  (forall v, history (context a) <> [] ->
             escalation_body (set_queryText v a) = escalation_body a).
Proof.
  split.
  - destruct (res_error res) eqn:He.
    + destruct (resume_error_effect toLocaleString text lang now res a He)
        as (Hc & _ & Hq).
      unfold escalation_body, last_record. now rewrite Hc, Hq.
    + destruct (resume_success_effect toLocaleString text lang now res a He)
        as (Hh & _).
      cbv zeta in Hh. unfold escalation_body.
      rewrite (last_record_pushed a _ _ Hh). reflexivity.
  - intros v Hne. unfold escalation_body, last_record.
    cbn [set_queryText set_ui context].
    destruct (rev (history (context a))) eqn:E; [|reflexivity].
    apply (f_equal (@rev _)) in E. rewrite rev_involutive in E.
    now destruct Hne.
Qed.

(** ** What a session never undoes *)

Lemma resume_keeps_ctx (toLocaleString : Z -> jsstring)
  (text lang : jsstring) (now : Z) (res : Response) (a : App) :
  lastImage (context (handleQuery_resume toLocaleString text lang now res a)) =
    lastImage (context a) /\
  location (context (handleQuery_resume toLocaleString text lang now res a)) =
    location (context a).
Proof.
  unfold handleQuery_resume. destruct (res_error res).
  - split; reflexivity.
  - cbv zeta. unfold save_to_history.
    match goal with
    | |- context [renderHistory _ ?b] =>
        destruct (renderHistory_keeps toLocaleString b) as (Hc & _)
    end.
    cbv zeta in Hc. rewrite Hc. split; reflexivity.
Qed.

Lemma fire_keeps_context (k : nat) (a : App) : context (fire k a) = context a.
Proof. apply fire_keeps. Qed.

Lemma handle_keeps_image (toLowerCase : jsstring -> jsstring)
  (toLocaleString : Z -> jsstring) (e : Event) (p : Page) :
  isSome (lastImage (context (page_app p))) = true ->
  isSome (lastImage (context
            (page_app (handle toLowerCase toLocaleString e p)))) = true.
Proof.
  intros H. destruct e; cbn [handle].
  - pose proof (handleQuery_begin_keeps (page_app p)) as K.
    destruct (handleQuery_begin (page_app p)); cbn [page_app with_app];
      destruct K as (-> & _); exact H.
  - destruct (nth_error (pending p) k) as [req|]; [|exact H].
    cbn [page_app].
    destruct (fetch toLowerCase req) as [d res|]; [|exact H].
    now rewrite (proj1 (resume_keeps_ctx toLocaleString _ _ now res _)).
  - exact H.
  - exact H.
  - destruct file; [reflexivity | exact H].
  - exact H.
  - exact H.
  - cbn [page_app with_app]. now rewrite fire_keeps_context.
  - exact H.
  - exact H.
  - destruct (escalate (page_app p)); exact H.
Qed.

Lemma run_keeps_image (toLowerCase : jsstring -> jsstring)
  (toLocaleString : Z -> jsstring) (es : list Event) (p : Page) :
  isSome (lastImage (context (page_app p))) = true ->
  isSome (lastImage (context
            (page_app (run toLowerCase toLocaleString es p)))) = true.
Proof.
  revert p; induction es as [|e es IH]; intros p H; [exact H|].
  change (run toLowerCase toLocaleString (e :: es) p)
    with (run toLowerCase toLocaleString es
            (handle toLowerCase toLocaleString e p)).
  now apply IH, handle_keeps_image.
Qed.

(** X13: once a file was chosen, whatever happens next in the session, a click
    on send is never refused by the validation, and its request carries a
    file; a change event without a file leaves the page as it is. *)
Theorem upload_unblocks_every_later_submission
  (toLowerCase : jsstring -> jsstring) (toLocaleString : Z -> jsstring)
  (es : list Event) (p : Page) (f : File) :
  match handleQuery_begin
          (page_app (run toLowerCase toLocaleString es
                       (handleImageUpload (Some f) p))) with
  | Pending req _ => isSome (req_image req) = true
  | Blocked _ => False
  end /\
  handleImageUpload None p = p /\
  preview (handleImageUpload (Some f) p) = Some f.
Proof.
  split; [|split; reflexivity].
  pose proof (run_keeps_image toLowerCase toLocaleString es
                (handleImageUpload (Some f) p) eq_refl) as H.
  unfold handleQuery_begin.
  destruct (lastImage (context (page_app _))) as [g|]; [|discriminate H].
  cbn [isSome negb]. rewrite andb_false_r. reflexivity.
Qed.

Lemma handle_keeps_location (toLowerCase : jsstring -> jsstring)
  (toLocaleString : Z -> jsstring) (e : Event) (p : Page) :
  isSome (location (context (page_app p))) = true ->
  isSome (location (context
            (page_app (handle toLowerCase toLocaleString e p)))) = true.
Proof.
  intros H. destruct e; cbn [handle].
  - pose proof (handleQuery_begin_keeps (page_app p)) as K.
    destruct (handleQuery_begin (page_app p)); cbn [page_app with_app];
      destruct K as (-> & _); exact H.
  - destruct (nth_error (pending p) k) as [req|]; [|exact H].
    cbn [page_app].
    destruct (fetch toLowerCase req) as [d res|]; [|exact H].
    now rewrite (proj2 (resume_keeps_ctx toLocaleString _ _ now res _)).
  - exact H.
  - exact H.
  - destruct file; exact H.
  - reflexivity.
  - exact H.
  - cbn [page_app with_app]. now rewrite fire_keeps_context.
  - exact H.
  - exact H.
  - destruct (escalate (page_app p)); exact H.
Qed.

Lemma run_keeps_location (toLowerCase : jsstring -> jsstring)
  (toLocaleString : Z -> jsstring) (es : list Event) (p : Page) :
  isSome (location (context (page_app p))) = true ->
  isSome (location (context
            (page_app (run toLowerCase toLocaleString es p)))) = true.
Proof.
  revert p; induction es as [|e es IH]; intros p H; [exact H|].
  change (run toLowerCase toLocaleString (e :: es) p)
    with (run toLowerCase toLocaleString es
            (handle toLowerCase toLocaleString e p)).
  now apply IH, handle_keeps_location.
Qed.

(** X14: once the location callback has run, whatever happens next in the
    session, every request that a click makes resolves without [error] and
    with an answer that starts with the location disclaimer. *)
Theorem located_session_answers_with_disclaimer
  (toLowerCase : jsstring -> jsstring) (toLocaleString : Z -> jsstring)
  (es : list Event) (p : Page) (l : Location) :
  match handleQuery_begin
          (page_app (run toLowerCase toLocaleString es
                       (handle toLowerCase toLocaleString (Located l) p))) with
  | Pending req _ =>
      exists r,
        fetch toLowerCase req = resolves_after 1200 r /\
        res_error r = false /\
        starts_with location_disclaimer (res_answer r) = true
  | Blocked _ => True
  end.
Proof.
  pose proof (run_keeps_location toLowerCase toLocaleString es
                (handle toLowerCase toLocaleString (Located l) p) eq_refl)
    as H.
  set (a := page_app _) in *.
  unfold handleQuery_begin.
  destruct (is_empty _ && negb _); [exact I|].
  cbv zeta. rewrite fetch_answer.
  eexists. split; [reflexivity|]. split; [reflexivity|].
  cbn [ok_response res_answer]. unfold answer_for.
  destruct (location (context a)); [|discriminate H].
  cbn [isSome]. apply starts_with_app.
Qed.

(** ** Dictation *)

Lemma trimStart_all_space (s : jsstring) :
  forallb is_space (trimStart s) = true -> forallb is_space s = true.
Proof.
  induction s as [|c s IH]; [reflexivity|].
  cbn [trimStart forallb]. destruct (is_space c) eqn:E.
  - intros H. now rewrite IH.
  - cbn [forallb]. now rewrite E.
Qed.

Lemma trimStart_nil (s : jsstring) :
  trimStart s = [] <-> forallb is_space s = true.
Proof.
  split.
  - intros H. apply trimStart_all_space. now rewrite H.
  - induction s as [|c s IH]; [reflexivity|].
    cbn [forallb trimStart]. intros H.
    apply andb_true_iff in H as [-> H]. now apply IH.
Qed.

Lemma forallb_rev {A : Type} (f : A -> bool) (l : list A) :
  forallb f (rev l) = forallb f l.
Proof.
  induction l as [|x l IH]; [reflexivity|].
  cbn [rev forallb]. rewrite forallb_app, IH. cbn [forallb].
  rewrite andb_true_r. apply andb_comm.
Qed.

Lemma trim_nil (s : jsstring) : trim s = [] <-> forallb is_space s = true.
Proof.
  unfold trim, trimEnd. split.
  - intros H. apply (f_equal (@rev _)) in H. rewrite rev_involutive in H.
    cbn [rev] in H. apply trimStart_nil in H. rewrite forallb_rev in H.
    now apply trimStart_all_space.
  - intros H. apply trimStart_nil in H. now rewrite H.
Qed.

(** X15: a recognition result keeps what the query field held and appends the
    transcript after a space (or sets it, when the field was empty); when the
    transcript is not blank the next click on send passes validation with a
    query that is not empty. *)
Theorem dictation_is_appended_and_unblocks (speech : jsstring) (a : App) :
  trim speech <> [] ->
  queryText_value (ui (onresult speech a)) =
    (if is_empty (queryText_value (ui a)) then speech
     else queryText_value (ui a) ++ 32 :: speech) /\
  starts_with (queryText_value (ui a)) (queryText_value (ui (onresult speech a)))
    = true /\
  exists req a',
    handleQuery_begin (onresult speech a) = Pending req a' /\
    req_query req = trim (queryText_value (ui (onresult speech a))) /\
    req_query req <> [].
Proof.
  intros Hs.
  assert (V : queryText_value (ui (onresult speech a)) =
              if is_empty (queryText_value (ui a)) then speech
              else queryText_value (ui a) ++ 32 :: speech) by reflexivity.
  split; [exact V|]. split.
  { rewrite V. destruct (queryText_value (ui a)) eqn:E; [reflexivity|].
    cbn [is_empty]. apply starts_with_app. }
  assert (N : trim (queryText_value (ui (onresult speech a))) <> []).
  { rewrite V. intros T. apply Hs. apply trim_nil. apply trim_nil in T.
    destruct (is_empty (queryText_value (ui a))); [exact T|].
    rewrite forallb_app in T. apply andb_true_iff in T as [_ T].
    cbn [forallb] in T. now apply andb_true_iff in T as [_ T]. }
  unfold handleQuery_begin.
  destruct (trim (queryText_value (ui (onresult speech a)))) eqn:E;
    [now destruct N|].
  cbn [is_empty andb]. do 2 eexists.
  split; [reflexivity|]. split; [reflexivity|discriminate].
Qed.

Lemma dictation_rain :
  trim (lit " rain today ") <> [] /\
  queryText_value (ui (onresult (lit " rain today ") rain_app)) =
    lit " Rain tomorrow   rain today ".
Proof.
  assert (H : trim (lit " rain today ") <> []) by (vm_compute; discriminate).
  split; [exact H|].
  destruct (dictation_is_appended_and_unblocks (lit " rain today ") rain_app H)
    as (E & _).
  rewrite E. reflexivity.
Defined.

(** ** When the escalation link cannot be built *)

Lemma unreserved_not_surrogate (c : codeunit) :
  is_unreserved c = true -> is_high c = false /\ is_low c = false.
Proof.
  intros H.
  assert (L : c <= 126).
  { unfold is_unreserved in H.
    repeat match type of H with
           | (_ || _) = true => apply orb_true_iff in H as [H|H]
           | (_ && _) = true => apply andb_true_iff in H as [? H]
           end;
    repeat match goal with
           | X : (_ <=? _) = true |- _ => apply N.leb_le in X
           | X : (_ =? _) = true |- _ => apply N.eqb_eq in X
           end; lia. }
  unfold is_high, is_low. split; apply andb_false_iff; left;
    apply N.leb_gt; lia.
Qed.

Lemma prepend_None (x : jsstring) (r : option jsstring) :
  prepend x r = None <-> r = None.
Proof. destruct r; split; intros H; (discriminate || reflexivity). Qed.

Lemma encodeURIComponent_throws (s : jsstring) :
  encodeURIComponent s = None <-> well_paired s = false.
Proof.
  assert (G : forall n s, (List.length s <= n)%nat ->
                (encodeURIComponent s = None <-> well_paired s = false)).
  { clear s. induction n as [|n IH]; intros s Hn.
    - destruct s; [split; discriminate|cbn in Hn; lia].
    - destruct s as [|c r]; [split; discriminate|].
      cbn [List.length] in Hn. cbn [encodeURIComponent well_paired].
      destruct (is_unreserved c) eqn:U.
      + destruct (unreserved_not_surrogate c U) as [-> ->].
        cbn [negb andb]. rewrite prepend_None. apply IH. lia.
      + destruct (is_high c) eqn:Hh.
        * assert (Hl : is_low c = false).
          { unfold is_high, is_low in *.
            apply andb_true_iff in Hh as [_ Hh]. apply N.leb_le in Hh.
            apply andb_false_iff. left. apply N.leb_gt. lia. }
          rewrite Hl. destruct r as [|d r']; [split; reflexivity|].
          destruct (is_low d); [|split; reflexivity].
          cbn [andb]. rewrite prepend_None. apply IH.
          cbn [List.length] in Hn. lia.
        * destruct (is_low c); [split; reflexivity|].
          cbn [negb andb]. rewrite prepend_None. apply IH. lia. }
  now apply (G (List.length s)).
Qed.

(** X16: the escalation handler assigns no address exactly when the text of
    the mail holds a surrogate without its partner, in which case
    [encodeURIComponent] throws. *)
Theorem escalation_fails_on_unpaired_surrogate (a : App) :
  escalate a = None <-> well_paired (escalation_body a) = false.
Proof.
  unfold escalate.
  change (encodeURIComponent (lit "Krishimitra Query Escalation"))
    with (Some (lit "Krishimitra%20Query%20Escalation")).
  rewrite <- encodeURIComponent_throws.
  destruct (encodeURIComponent (escalation_body a)); split;
    intros H; (discriminate || reflexivity).
Qed.

Lemma session_keeps_history_stored_busy :
  (in_sync (page_app fresh_page) /\
   (List.length (history (context (page_app fresh_page))) <= 10)%nat) /\
  in_sync (page_app (run ascii_toLowerCase apostrophe_locale busy_session
                       fresh_page)) /\
  List.length
    (history (context (page_app (run ascii_toLowerCase apostrophe_locale
                                   busy_session fresh_page)))) = 2%nat.
Proof.
  assert (H1 : in_sync (page_app fresh_page)) by reflexivity.
  assert (H2 : (List.length (history (context (page_app fresh_page))) <= 10)%nat)
    by (cbn; lia).
  split; [split; assumption|].
  destruct (session_keeps_history_stored ascii_toLowerCase apostrophe_locale
              busy_session fresh_page H1 H2) as (H & _).
  split; [exact H|]. vm_compute. reflexivity.
Defined.

Lemma escapeHtml_injective_tag :
  escapeHtml (val (lit "a<b&c")) = escapeHtml (val ([97; 60] ++ lit "b&c")) /\
  lit "a<b&c" = [97; 60] ++ lit "b&c".
Proof.
  split; [reflexivity|].
  apply (escapeHtml_injective (lit "a<b&c") ([97; 60] ++ lit "b&c")).
  reflexivity.
Defined.

Lemma newest_item_first_overfull :
  res_error (ok_response text_weather) = false /\
  hd_error
    (historyList
       (ui (handleQuery_resume apostrophe_locale (lit "rain 12") (lit "en")
              1730000000012 (ok_response text_weather) overfull_app))) =
    Some (render_item apostrophe_locale
            {| rec_q := lit "rain 12"; rec_lang := lit "en";
               rec_ts := 1730000000012; rec_answer := text_weather |}).
Proof.
  split; [reflexivity|].
  destruct (newest_item_first apostrophe_locale (lit "rain 12") (lit "en")
              1730000000012%Z (ok_response text_weather) overfull_app eq_refl)
    as (_ & H & _).
  exact H.
Defined.
